(** * MailSight: the route handlers of [routes.py]

    A shallow embedding of the Flask handlers [tracklist], [track] and
    [logout], and of the Python values they compute with: insertion-ordered
    dictionaries, [sorted] with [reverse=True], timezone-aware datetimes and
    the realtime-database node layout
    [/MailTrackData/Users/{uid}/{utm_id}] and
    [/MailTrackData/LinkHits/{utm_id}/{push id}]. *)

From Stdlib Require Import ZArith List String Ascii Bool Lia.
From Stdlib Require Import Permutation Sorted.
Import ListNotations.

Local Open Scope string_scope.
Local Open Scope Z_scope.

(** ** Python values *)

(** Exceptions that these handlers can raise and that nothing catches, so
    that the framework answers with status 500. *)
Inductive exception :=
| KeyError
| TypeError
| AttributeError
| ValueError
| IndexError.

(** Keys of a dictionary: a type with a boolean equality. *)
Class KeyEq (K : Type) := {
  keqb : K -> K -> bool;
  keqb_spec : forall x y : K, reflect (x = y) (keqb x y)
}.

#[export] Instance string_KeyEq : KeyEq string :=
  {| keqb := String.eqb; keqb_spec := String.eqb_spec |}.

#[export] Instance Z_KeyEq : KeyEq Z :=
  {| keqb := Z.eqb; keqb_spec := Z.eqb_spec |}.

(** A Python [dict]: keys in insertion order, each at most once.  Assigning
    to a key that is present replaces its value where it stands; assigning
    to a new key appends it. *)
Module Dict.
Section Ops.
Context {K V : Type} `{KeyEq K}.

Fixpoint get (k : K) (d : list (K * V)) : option V :=
  match d with
  | [] => None
  | (k', v) :: d' => if keqb k k' then Some v else get k d'
  end.

Fixpoint set (k : K) (v : V) (d : list (K * V)) : list (K * V) :=
  match d with
  | [] => [(k, v)]
  | (k', v') :: d' =>
      if keqb k k' then (k', v) :: d' else (k', v') :: set k v d'
  end.

Definition keys (d : list (K * V)) : list K := map fst d.

(** [dict(pairs)] *)
Definition of_list (l : list (K * V)) : list (K * V) :=
  fold_left (fun d kv => set (fst kv) (snd kv) d) l [].
End Ops.
End Dict.

Definition dict (K V : Type) := list (K * V).

(** [xs[i]] on a list: indices [-len .. len-1], [IndexError] outside. *)
Definition py_index {A : Type} (xs : list A) (i : Z) : option A :=
  let n := Z.of_nat (List.length xs) in
  if (0 <=? i) && (i <? n) then nth_error xs (Z.to_nat i)
  else if (- n <=? i) && (i <? 0) then nth_error xs (Z.to_nat (n + i))
  else None.

(** [a or b] on optional strings: [a] when it is a non-empty string. *)
Definition py_or (a b : option string) : option string :=
  match a with
  | Some s => if String.eqb s "" then b else a
  | None => b
  end.

(** [sorted(l, key=..., reverse=...)].  The sort is stable; [lt] is the
    comparison of the keys.  With [reverse=True] the list is reversed,
    sorted and reversed again, which keeps equal keys in their original
    order. *)
Section Sorted.
Context {A : Type} (lt : A -> A -> bool).

Fixpoint insert (x : A) (l : list A) : list A :=
  match l with
  | [] => [x]
  | y :: l' => if lt y x then y :: insert x l' else x :: l
  end.

Fixpoint sort_stable (l : list A) : list A :=
  match l with
  | [] => []
  | x :: l' => insert x (sort_stable l')
  end.

Definition sorted (reverse : bool) (l : list A) : list A :=
  if reverse then rev (sort_stable (rev l)) else sort_stable l.
End Sorted.

(** ** Datetimes *)

(** An aware [datetime]: the local calendar fields and the UTC offset of its
    fixed-offset zone, in microseconds. *)
Record datetime := {
  year : Z;
  month : Z;
  day : Z;
  hour : Z;
  minute : Z;
  second : Z;
  microsecond : Z;
  utcoffset : Z
}.

Definition is_leap (y : Z) : bool :=
  (y mod 4 =? 0) && (negb (y mod 100 =? 0) || (y mod 400 =? 0)).

Definition days_before_year (y : Z) : Z :=
  let y1 := y - 1 in y1 * 365 + y1 / 4 - y1 / 100 + y1 / 400.

Definition days_in_month (y m : Z) : Z :=
  if (m =? 2) && is_leap y then 29
  else nth (Z.to_nat m) [0; 31; 28; 31; 30; 31; 30; 31; 31; 30; 31; 30; 31] 0.

Definition days_before_month (y m : Z) : Z :=
  nth (Z.to_nat m) [0; 0; 31; 59; 90; 120; 151; 181; 212; 243; 273; 304; 334] 0
  + (if (2 <? m) && is_leap y then 1 else 0).

Definition toordinal (d : datetime) : Z :=
  days_before_year (year d) + days_before_month (year d) (month d) + day d.

(** The instant of an aware datetime, in microseconds: comparing two aware
    datetimes compares these ([self - other] takes the offsets into
    account). *)
Definition instant (d : datetime) : Z :=
  ((toordinal d * 24 + hour d) * 60 + minute d) * 60 * 1000000
  + second d * 1000000 + microsecond d - utcoffset d.

Definition datetime_lt (a b : datetime) : bool := instant a <? instant b.

(** ** Results of code that can raise *)

Definition result (A : Type) : Type := exception + A.

Definition bind {A B : Type} (r : result A) (k : A -> result B) : result B :=
  match r with
  | inl e => inl e
  | inr a => k a
  end.

Notation "x <- r ;; k" := (bind r (fun x => k))
  (at level 61, r at next level, right associativity).

(** A loop over the items of a dictionary that rebuilds each value in place
    and stops at the first exception. *)
Fixpoint traverse {K V W : Type} (f : K -> V -> result W) (d : list (K * V))
  : result (list (K * W)) :=
  match d with
  | [] => inr []
  | (k, v) :: d' =>
      w <- f k v ;;
      d'' <- traverse f d' ;;
      inr ((k, w) :: d'')
  end.

(** A dictionary built item by item, as a comprehension or a loop of
    assignments builds it: the key and the value of each item are computed
    and assigned in turn, and the first exception ends it. *)
Definition dict_step {X K W : Type} `{KeyEq K} (kv : X -> result (K * W))
    (acc : result (dict K W)) (x : X) : result (dict K W) :=
  d <- acc ;;
  kw <- kv x ;;
  inr (Dict.set (fst kw) (snd kw) d).

Definition dict_from {X K W : Type} `{KeyEq K} (kv : X -> result (K * W))
    (l : list X) : result (dict K W) :=
  fold_left (dict_step kv) l (inr []).

(** ** The record store *)

(** The dictionary kept for a tracking link.  [index] writes [MailTitle],
    [MailAddress] and [GeneratedOn] (a string); [tracklist] adds the key
    [Hits] and replaces [GeneratedOn] by the parsed datetime, hence the type
    parameter.  [Hits = None] is the dictionary without that key. *)
Record link_dict (T : Type) := {
  MailTitle : string;
  MailAddress : string;
  GeneratedOn : T;
  Hits : option nat
}.
Arguments MailTitle {T} _.
Arguments MailAddress {T} _.
Arguments GeneratedOn {T} _.
Arguments Hits {T} _.

Record HitEvent := {
  IP : option string;
  UserAgent : string;
  AccessedOn : string
}.

(** The node [/MailTrackData/LinkHits/{utm_id}]: the string that [index]
    wrote as a placeholder (the empty string), or the records pushed under
    it, by push id. *)
Inductive hits_node :=
| HitsPlaceholder (s : string)
| HitsRecords (records : dict string HitEvent).

(** [len(link_hits[utm_id])] *)
Definition len (n : hits_node) : nat :=
  match n with
  | HitsPlaceholder s => String.length s
  | HitsRecords records => List.length records
  end.

Record store := {
  Users : dict string (dict string (link_dict string));
  LinkHits : dict string hits_node
}.

(** [reference(path).get()] on a node with children: [None] when the node
    holds nothing. *)
Definition ref_get {K V : Type} (node : option (dict K V)) : option (dict K V) :=
  match node with
  | Some (kv :: d) => Some (kv :: d)
  | _ => None
  end.

Definition get_Users (st : store) (uid : string)
  : option (dict string (link_dict string)) :=
  ref_get (Dict.get uid (Users st)).

Definition get_LinkHits (st : store) : option (dict string hits_node) :=
  ref_get (Some (LinkHits st)).

(** ** Requests and responses *)

Record session := { uid : option string }.

Record request := {
  args_utm_id : option string;
  header_X_Forwarded_For : option string;
  header_User_Agent : option string;
  remote_addr : option string;
  cookie_secure_session : option string
}.

(** Responses carry what the client sees: the rendered data, the redirect
    with its flashed message and cookie, the file, the [abort] status, or
    the exception that nothing caught.  Log lines are left out.

    What [tracklist] hands to the template: years, then month names, then
    the links of that month, each level in the order it is rendered. *)
Definition overview : Type :=
  dict Z (dict string (list (string * link_dict datetime))).

Inductive response :=
| RenderTrackList (tracking_list : overview) (search_mode : bool)
| Redirect (endpoint : string) (code : Z) (flashed : option string)
    (set_cookie : option (string * string * Z))
| SendFile (filename mimetype : string) (max_age : Z)
| Abort (status : Z)
| Uncaught (e : exception).

Definition status_code (r : response) : Z :=
  match r with
  | RenderTrackList _ _ => 200
  | Redirect _ code _ _ => code
  | SendFile _ _ _ => 200
  | Abort status => status
  | Uncaught _ => 500
  end.

(** ** [tracklist] *)

Definition month_names : list string :=
  [ ""; "January"; "February"; "March"; "April"; "May"; "June"; "July";
    "August"; "September"; "October"; "November"; "December" ].

Section Tracklist.
(** [dt.strptime(s, "%Y-%m-%d %H:%M:%S.%f%z")]: the parsed datetime, or
    [None] where the library raises [ValueError]. *)
Variable strptime : string -> option datetime.

(** Lines 96-100: the [Hits] of every link; a key that [link_hits] lacks
    is skipped, and [link_hits] being [None] is a [TypeError]. *)
Definition add_hits (link_hits : option (dict string hits_node))
    (utm_id : string) (item : link_dict string) : result (link_dict string) :=
  match link_hits with
  | None => inl TypeError
  | Some hits =>
      match Dict.get utm_id hits with
      | Some node =>
          inr {| MailTitle := MailTitle item; MailAddress := MailAddress item;
                 GeneratedOn := GeneratedOn item; Hits := Some (len node) |}
      | None => inr item
      end
  end.

(** Lines 103-106. *)
Definition parse_date (utm_id : string) (item : link_dict string)
  : result (link_dict datetime) :=
  match strptime (GeneratedOn item) with
  | None => inl ValueError
  | Some d =>
      inr {| MailTitle := MailTitle item; MailAddress := MailAddress item;
             GeneratedOn := d; Hits := Hits item |}
  end.

Definition grouped : Type := dict Z (dict Z (list (string * link_dict datetime))).

(** Line 115: [sorted_tracking[year][month].append((key, value))] on a
    [defaultdict] of [defaultdict]s of lists. *)
Definition group_step (sorted_tracking : grouped)
    (kv : string * link_dict datetime) : grouped :=
  let y := year (GeneratedOn (snd kv)) in
  let m := month (GeneratedOn (snd kv)) in
  let months := match Dict.get y sorted_tracking with Some ms => ms | None => [] end in
  let items := match Dict.get m months with Some l => l | None => [] end in
  Dict.set y (Dict.set m (items ++ [kv])%list months) sorted_tracking.

Definition group (tracking_list : dict string (link_dict datetime)) : grouped :=
  fold_left group_step tracking_list [].

Definition by_GeneratedOn (a b : string * link_dict datetime) : bool :=
  datetime_lt (GeneratedOn (snd a)) (GeneratedOn (snd b)).

(** Lines 118-122: every month's list replaced by its sorted copy. *)
Definition sort_items (sorted_tracking : grouped) : grouped :=
  map (fun ym : Z * dict Z (list (string * link_dict datetime)) =>
         (fst ym,
          map (fun mi : Z * list (string * link_dict datetime) =>
                 (fst mi, sorted by_GeneratedOn true (snd mi)))
              (snd ym)))
      sorted_tracking.

(** Line 125: the [(year, months)] pairs compare by their year, the years
    of a dictionary being distinct. *)
Definition by_year (a b : Z * dict Z (list (string * link_dict datetime))) : bool :=
  fst a <? fst b.

Definition sort_years (sorted_tracking : grouped) : grouped :=
  Dict.of_list (sorted by_year true sorted_tracking).

(** Lines 143-147: the month numbers replaced by their names, in a
    dictionary comprehension per year. *)
Definition name_months (months : dict Z (list (string * link_dict datetime)))
  : result (dict string (list (string * link_dict datetime))) :=
  dict_from
    (fun mi : Z * list (string * link_dict datetime) =>
       match py_index month_names (fst mi) with
       | Some name => inr (name, snd mi)
       | None => inl IndexError
       end)
    months.

Definition with_months (sorted_tracking : grouped) : result overview :=
  dict_from
    (fun ym : Z * dict Z (list (string * link_dict datetime)) =>
       months <- name_months (snd ym) ;;
       inr (fst ym, months))
    sorted_tracking.

Definition build_overview (link_hits : option (dict string hits_node))
    (tracking_list : dict string (link_dict string)) : result overview :=
  with_hits <- traverse (add_hits link_hits) tracking_list ;;
  parsed <- traverse parse_date with_hits ;;
  with_months (sort_years (sort_items (group parsed))).

Definition tracklist (st : store) (sess : session) : response :=
  match uid sess with
  | None => Uncaught KeyError
  | Some u =>
      match get_Users st u with
      | Some tracking_list =>
          match build_overview (get_LinkHits st) tracking_list with
          | inr sorted_tracking_with_months =>
              RenderTrackList sorted_tracking_with_months false
          | inl e => Uncaught e
          end
      | None =>
          Redirect "index" 303
            (Some "Sorry, No tracking records found! - Let's generate a one!") None
      end
  end.
End Tracklist.

(** ** [track] *)

Definition FILENAME : string := "static/OI-pixel.gif".

Definition pixel : response := SendFile FILENAME "image/gif" 0.

(** [reference("/MailTrackData/LinkHits/{utm_id}/").push().set(event)]: the
    event becomes the child [push_id] of the node, which stops being a
    placeholder string if it was one. *)
Definition push_hit (push_id utm_id : string) (event : HitEvent) (st : store)
  : store :=
  let records :=
    match Dict.get utm_id (LinkHits st) with
    | Some (HitsRecords records) => records
    | _ => []
    end in
  {| Users := Users st;
     LinkHits :=
       Dict.set utm_id (HitsRecords (Dict.set push_id event records))
         (LinkHits st) |}.

(** Lines 188-197, the body of the [try]: the pixel for the owner, and the
    exception raised otherwise. *)
Definition self_view (st : store) (sess : session) (utm_id : string)
  : result response :=
  match uid sess with
  | None => inl KeyError
  | Some active_session_id =>
      match get_Users st active_session_id with
      | None => inl AttributeError
      | Some user_data =>
          if existsb (String.eqb utm_id) (Dict.keys user_data)
          then inr pixel
          else inl KeyError
      end
  end.

(** Lines 199-213, the [except KeyError] branch. *)
Definition record_hit (accessed_on push_id : string) (req : request)
    (utm_id : string) (st : store) : response * store :=
  let ip_address := py_or (header_X_Forwarded_For req) (remote_addr req) in
  match header_User_Agent req with
  | None => (Uncaught KeyError, st)
  | Some header =>
      (pixel,
       push_hit push_id utm_id
         {| IP := ip_address; UserAgent := header; AccessedOn := accessed_on |}
         st)
  end.

(** [accessed_on] is [str(dt.now().astimezone(...))] at the request and
    [push_id] the key that [push()] generates. *)
Definition track (accessed_on push_id : string) (req : request)
    (sess : session) (st : store) : response * store :=
  match args_utm_id req with
  | None => (Abort 400, st)
  | Some utm_id =>
      if negb (String.eqb utm_id "") then
        match get_LinkHits st with
        | None => (Uncaught TypeError, st)
        | Some all_hits =>
            match Dict.get utm_id all_hits with
            | None => (Abort 400, st)
            | Some _ =>
                match self_view st sess utm_id with
                | inr r => (r, st)
                | inl KeyError => record_hit accessed_on push_id req utm_id st
                | inl e => (Uncaught e, st)
                end
            end
        end
      else (Abort 400, st)
  end.

(** ** [logout] *)

(** The outcome of verifying a session cookie: the decoded claims with
    their [uid], [InvalidSessionCookieError] (of which the expired and the
    revoked cookie errors are subclasses), or another exception. *)
Inductive verified :=
| Claims (claims_uid : string)
| InvalidSessionCookieError
| OtherError (e : exception).

(** The identity service: what it answers for a cookie string, and whether
    revoking the refresh tokens of a user raises. *)
Record identity := {
  verify_token : string -> verified;
  revoke_refresh_tokens : string -> option exception
}.

(** [auth.verify_session_cookie(cookie)].  The SDK documents [ValueError]
    for invalid input parameters: a cookie that is not a non-empty string
    is refused with it before any verification takes place. *)
Definition verify_session_cookie (idp : identity) (cookie : option string)
  : verified :=
  match cookie with
  | None => OtherError ValueError
  | Some c =>
      if String.eqb c "" then OtherError ValueError else verify_token idp c
  end.

(** The response, and the users whose refresh tokens were revoked. *)
Definition logout (idp : identity) (req : request) : response * list string :=
  let session_cookie := cookie_secure_session req in
  match verify_session_cookie idp session_cookie with
  | Claims u =>
      match revoke_refresh_tokens idp u with
      | Some e => (Uncaught e, [])
      | None =>
          (Redirect "login" 303
             (Some "Successfully Logged Out! - See you soon...")
             (Some ("secure-session", "", 0)),
           [u])
      end
  | InvalidSessionCookieError => (Redirect "login" 303 None None, [])
  | OtherError e => (Uncaught e, [])
  end.

(** ** A parser for the stored timestamps *)

(** [strptime] on the strings that [index] stores, [str] of an aware
    datetime: [YYYY-MM-DD HH:MM:SS.ffffff+HH:MM], every field padded.  The
    library accepts more (unpadded fields, seconds in the offset, [Z]); this
    parser refuses what is not in the padded form, and the theorems below
    that take a parser hold for any. *)
Module Strptime.
Definition digit (c : ascii) : option Z :=
  let n := Z.of_N (N_of_ascii c) in
  if (48 <=? n) && (n <=? 57) then Some (n - 48) else None.

Fixpoint digits (n : nat) (acc : Z) (s : string) : option (Z * string) :=
  match n, s with
  | O, _ => Some (acc, s)
  | S n', String c s' =>
      match digit c with
      | Some d => digits n' (acc * 10 + d) s'
      | None => None
      end
  | S _, EmptyString => None
  end.

Definition expect (c : ascii) (s : string) : option string :=
  match s with
  | String c' s' => if Ascii.eqb c c' then Some s' else None
  | EmptyString => None
  end.

Definition sign (s : string) : option (Z * string) :=
  match s with
  | String c s' =>
      if Ascii.eqb c "+" then Some (1, s')
      else if Ascii.eqb c "-" then Some (-1, s')
      else None
  | EmptyString => None
  end.

Definition obind {A B : Type} (o : option A) (k : A -> option B) : option B :=
  match o with Some a => k a | None => None end.

Definition in_range (lo x hi : Z) : bool := (lo <=? x) && (x <=? hi).

Definition parse (s : string) : option datetime :=
  obind (digits 4 0 s) (fun '(Y, s) =>
  obind (expect "-" s) (fun s =>
  obind (digits 2 0 s) (fun '(m, s) =>
  obind (expect "-" s) (fun s =>
  obind (digits 2 0 s) (fun '(d, s) =>
  obind (expect " " s) (fun s =>
  obind (digits 2 0 s) (fun '(hh, s) =>
  obind (expect ":" s) (fun s =>
  obind (digits 2 0 s) (fun '(mi, s) =>
  obind (expect ":" s) (fun s =>
  obind (digits 2 0 s) (fun '(sec, s) =>
  obind (expect "." s) (fun s =>
  obind (digits 6 0 s) (fun '(f, s) =>
  obind (sign s) (fun '(sg, s) =>
  obind (digits 2 0 s) (fun '(zh, s) =>
  obind (expect ":" s) (fun s =>
  obind (digits 2 0 s) (fun '(zm, s) =>
  match s with
  | EmptyString =>
      if in_range 1 Y 9999 && in_range 1 m 12
         && in_range 1 d (days_in_month Y m)
         && in_range 0 hh 23 && in_range 0 mi 59 && in_range 0 sec 59
         && in_range 0 zh 23 && in_range 0 zm 59
      then Some {| year := Y; month := m; day := d; hour := hh; minute := mi;
                   second := sec; microsecond := f;
                   utcoffset := sg * (zh * 3600 + zm * 60) * 1000000 |}
      else None
  | _ => None
  end))))))))))))))))).
End Strptime.

(** ** [index], [tracking_data] and [login] *)

(** What these three handlers answer: a rendered template, the detail page
    with the data handed to it, a redirect ([url_for] of an endpoint, with
    the [utm_id] argument when there is one, the flashed message and the
    cookie set on the response), an [abort], or an exception that nothing
    caught. *)
Record cookie := {
  cookie_name : string;
  cookie_value : string;
  max_age : Z;
  httponly : bool;
  secure : bool;
  samesite : string
}.

(** Exceptions by the class that decides who catches them. *)
Inductive raised :=
| Builtin (e : exception)
| RequestException
| FirebaseError
| Unclassified.

Inductive reply :=
| RenderTemplate (template : string)
| RenderTrackingData (data : link_dict string) (link_hits : option hits_node)
    (utm_id : string)
| RedirectTo (endpoint : string) (utm_id : option string) (code : Z)
    (flashed : option string) (set_cookie : option cookie)
| AbortWith (status : Z) (description : string)
| Raises (e : raised).


(** The fields of [forms.GenerateTrackingLink] after validation. *)
Record link_form := {
  email_title : string;
  email_address : string
}.

(** [reference("/MailTrackData/Users/{uid}").child(utm_id).set(link)] *)
Definition set_link (u utm_id : string) (link : link_dict string) (st : store)
  : store :=
  let links := match Dict.get u (Users st) with Some l => l | None => [] end in
  {| Users := Dict.set u (Dict.set utm_id link links) (Users st);
     LinkHits := LinkHits st |}.

(** [reference("/MailTrackData/LinkHits").update({utm_id: ""})] *)
Definition update_LinkHits (utm_id : string) (st : store) : store :=
  {| Users := Users st;
     LinkHits := Dict.set utm_id (HitsPlaceholder "") (LinkHits st) |}.

(** [form] is the submitted form when [validate_on_submit()] holds, [utm_id]
    is [str(uuid.uuid4())] and [generated_on] is
    [str(dt.now().astimezone(...))]. *)
Definition index (utm_id generated_on : string) (form : option link_form)
    (sess : session) (st : store) : reply * store :=
  match form with
  | Some f =>
      match uid sess with
      | None => (Raises (Builtin KeyError), st)
      | Some u =>
          let st1 :=
            set_link u utm_id
              {| MailTitle := email_title f; MailAddress := email_address f;
                 GeneratedOn := generated_on; Hits := None |} st in
          let st2 := update_LinkHits utm_id st1 in
          (RedirectTo "tracking_data" (Some utm_id) 303
             (Some "Tracking link successfully generated!") None,
           st2)
      end
  | None => (RenderTemplate "index.html", st)
  end.

(** [reference("/MailTrackData/Users/{uid}/{utm_id}").get()] *)
Definition get_link (st : store) (u utm_id : string) : option (link_dict string) :=
  match Dict.get u (Users st) with
  | Some links => Dict.get utm_id links
  | None => None
  end.

(** [reference("/MailTrackData/LinkHits/{utm_id}").get()]: the placeholder
    string, the records, or [None] when the node holds nothing. *)
Definition get_hits (st : store) (utm_id : string) : option hits_node :=
  match Dict.get utm_id (LinkHits st) with
  | Some (HitsRecords []) => None
  | node => node
  end.

Definition tracking_data (utm_id : string) (sess : session) (st : store) : reply :=
  match uid sess with
  | None => Raises (Builtin KeyError)
  | Some u =>
      match get_link st u utm_id with
      | Some tracking_list =>
          RenderTrackingData tracking_list (get_hits st utm_id) utm_id
      | None =>
          RedirectTo "tracklist" None 303 (Some "Sorry, Not a valid UTM id!") None
      end
  end.

(** What [login] calls outside the application.  [check_cookie] is
    [auth.verify_session_cookie(cookie, check_revoked=True)] on a non-empty
    cookie; [api_key] is [os.environ["FIREBASE_API_KEY"]]; [post_sign_in] is
    the request to the sign-in endpoint, giving the exception it raises or
    the status of the response with what [json()["idToken"]] would give;
    [create_session_cookie] is the call of that name. *)
Inductive checked :=
| CheckedClaims
| CheckedRevoked
| CheckedRaises (e : raised).

Record login_world := {
  check_cookie : string -> checked;
  api_key : option string;
  post_sign_in : string -> string -> string -> raised + (Z * (raised + string));
  create_session_cookie : string -> raised + string
}.

(** The fields of [forms.LoginForm] after validation. *)
Record credentials := {
  username : string;
  password : string
}.

(** Line 299: [except (ValueError, RequestException, FirebaseError)]. *)
Definition caught_on_sign_in (e : raised) : bool :=
  match e with
  | Builtin ValueError => true
  | RequestException => true
  | FirebaseError => true
  | _ => false
  end.

Definition on_sign_in_error (e : raised) : reply :=
  if caught_on_sign_in e
  then AbortWith 503 "Service temporarily unavailable, try again later."
  else Raises e.

(** Lines 260-310, once no session cookie ended the request. *)
Definition sign_in (w : login_world) (form : option credentials) : reply :=
  match form with
  | Some c =>
      match api_key w with
      | None => Raises (Builtin KeyError)
      | Some key =>
          match post_sign_in w key (username c) (password c) with
          | inl e => on_sign_in_error e
          | inr (status, id_token) =>
              if status =? 200 then
                match id_token with
                | inl e => on_sign_in_error e
                | inr token =>
                    match create_session_cookie w token with
                    | inl e => on_sign_in_error e
                    | inr session_cookie =>
                        RedirectTo "index" None 303 None
                          (Some {| cookie_name := "secure-session";
                                   cookie_value := session_cookie;
                                   max_age := 14 * 24 * 60 * 60;
                                   httponly := true;
                                   secure := true;
                                   samesite := "Strict" |})
                    end
                end
              else
                RedirectTo "login" None 303
                  (Some "Invalid username or password!") None
          end
      end
  | None => RenderTemplate "login.html"
  end.

(** Lines 245-258, for a cookie that is a non-empty string. *)
Definition already_logged_in (w : login_world) (session_cookie : string) : reply :=
  match check_cookie w session_cookie with
  | CheckedClaims =>
      RedirectTo "index" None 303 (Some "You're already logged in!") None
  | CheckedRevoked =>
      AbortWith 401
        "Session cookie has been revoked.Try clearing your browser cookies and logging in again."
  | CheckedRaises e => Raises e
  end.

Definition login (w : login_world) (form : option credentials) (req : request)
  : reply :=
  match cookie_secure_session req with
  | Some session_cookie =>
      if String.eqb session_cookie "" then sign_in w form
      else already_logged_in w session_cookie
  | None => sign_in w form
  end.

(** * Vocabulary of the properties *)

(** The comparison that [sorted] makes for a key function. *)
Definition key_lt {A : Type} (key : A -> Z) (a b : A) : bool := key a <? key b.

(** Ascending and descending lists of keys. *)
Definition ascending {A : Type} (key : A -> Z) : list A -> Prop :=
  StronglySorted (fun a b => key a <= key b).

Definition descending {A : Type} (key : A -> Z) : list A -> Prop :=
  StronglySorted (fun a b => key b <= key a).

(** The links of a two-level grouping, in rendering order. *)
Definition all_items {K1 K2 X : Type} (g : dict K1 (dict K2 (list X))) : list X :=
  flat_map (fun ym => flat_map snd (snd ym)) g.

Definition link_item : Type := string * link_dict datetime.

(** The key that line 121 sorts by. *)
Definition generated (kv : link_item) : Z := instant (GeneratedOn (snd kv)).

Definition valid_month (kv : link_item) : Prop :=
  1 <= month (GeneratedOn (snd kv)) <= 12.

(** Years and, per year, months are keys of dictionaries, and the months
    are calendar months. *)
Definition grouped_ok (g : grouped) : Prop :=
  NoDup (Dict.keys g) /\
  Forall (fun ym => NoDup (Dict.keys (snd ym)) /\
                    Forall (fun m => 1 <= m <= 12) (Dict.keys (snd ym))) g.

(** After lines 118-122 every month holds a list that descends in
    [GeneratedOn]. *)
Definition months_descending {K : Type} (months : dict K (list link_item)) : Prop :=
  Forall (fun mi => descending generated (snd mi)) months.

Definition month_name (m : Z) : string := nth (Z.to_nat m) month_names "".

(** The overview when no two months of a year share a name: the grouping
    with every month number replaced by its name. *)
Definition named (g : grouped) : overview :=
  map (fun ym : Z * dict Z (list link_item) =>
         (fst ym, map (fun mi : Z * list link_item => (month_name (fst mi), snd mi))
                      (snd ym)))
      g.

Fixpoint index_of (s : string) (l : list string) : Z :=
  match l with
  | [] => 0
  | s' :: l' => if String.eqb s s' then 0 else 1 + index_of s l'
  end.

(** Every stored timestamp parses, to a calendar month. *)
Definition parses (strptime : string -> option datetime)
    (tracking_list : dict string (link_dict string)) : bool :=
  forallb
    (fun kv : string * link_dict string =>
       match strptime (GeneratedOn (snd kv)) with
       | Some d => (1 <=? month d) && (month d <=? 12)
       | None => false
       end)
    tracking_list.

(** The [Hits] that lines 96-100 leave in a link: the length of its node
    when [link_hits] has the key, and what the link had otherwise. *)
Definition annotated (hits : dict string hits_node) (utm_id : string)
    (item : link_dict string) : option nat :=
  match Dict.get utm_id hits with
  | Some node => Some (len node)
  | None => Hits item
  end.

(** A stored link and the entry that the overview shows for it. *)
Definition shown (strptime : string -> option datetime)
    (hits : dict string hits_node)
    (kv : string * link_dict string) (kw : link_item) : Prop :=
  fst kw = fst kv /\
  MailTitle (snd kw) = MailTitle (snd kv) /\
  MailAddress (snd kw) = MailAddress (snd kv) /\
  strptime (GeneratedOn (snd kv)) = Some (GeneratedOn (snd kw)) /\
  Hits (snd kw) = annotated hits (fst kv) (snd kv).

(** The requester is not the owner of [utm_id] in the way the handler
    foresees: there is no session, or the session's user has links and
    [utm_id] is none of them. *)
Definition not_owner (st : store) (sess : session) (utm_id : string) : Prop :=
  uid sess = None \/
  exists u user_data,
    uid sess = Some u /\ get_Users st u = Some user_data /\
    ~ In utm_id (Dict.keys user_data).

(** The node can take one more record under [push_id]: it is the
    placeholder that [index] wrote, or records none of which has that id. *)
Definition takes_push (push_id : string) (node : hits_node) : Prop :=
  match node with
  | HitsPlaceholder s => s = ""
  | HitsRecords records => Dict.get push_id records = None
  end.

(** ** Stores and requests used as examples *)

Definition stored (title generated_on : string) : link_dict string :=
  {| MailTitle := title; MailAddress := "to@example.org";
     GeneratedOn := generated_on; Hits := None |}.

Definition shown_link (title : string) (generated_on : datetime)
    (hits : option nat) : link_dict datetime :=
  {| MailTitle := title; MailAddress := "to@example.org";
     GeneratedOn := generated_on; Hits := hits |}.

Definition utc (y m d hh mi : Z) : datetime :=
  {| year := y; month := m; day := d; hour := hh; minute := mi; second := 0;
     microsecond := 250000; utcoffset := 0 |}.

Definition session_U : session := {| uid := Some "U" |}.

(** User U made link a in January 2024 and link b in March 2024. *)
Definition january_march_store : store :=
  {| Users :=
       [("U", [("a", stored "A" "2024-01-15 10:00:00.250000+00:00");
               ("b", stored "B" "2024-03-15 09:00:00.250000+00:00")])];
     LinkHits := [("a", HitsPlaceholder ""); ("b", HitsPlaceholder "")] |}.

(** User U made links a and b in March 2024, a first; b has one hit. *)
Definition march_store : store :=
  {| Users :=
       [("U", [("a", stored "A" "2024-03-01 10:00:00.250000+00:00");
               ("b", stored "B" "2024-03-15 09:00:00.250000+00:00")])];
     LinkHits :=
       [("a", HitsPlaceholder "");
        ("b", HitsRecords
                [("-N1", {| IP := Some "203.0.113.7"; UserAgent := "Mail";
                            AccessedOn := "2024-03-16 08:00:00.500000+00:00" |})])] |}.

Definition march_overview : overview :=
  [(2024, [("March", [("b", shown_link "B" (utc 2024 3 15 9 0) (Some 1%nat));
                      ("a", shown_link "A" (utc 2024 3 1 10 0) (Some 0%nat))])])].

(** As [march_store], but the hit index has no key for link a. *)
Definition missing_key_store : store :=
  {| Users := Users march_store;
     LinkHits := [("b", HitsPlaceholder "")] |}.

Definition missing_key_overview : overview :=
  [(2024, [("March", [("b", shown_link "B" (utc 2024 3 15 9 0) (Some 0%nat));
                      ("a", shown_link "A" (utc 2024 3 1 10 0) None)])])].

Definition pixel_request (utm_id : string) (user_agent : option string) : request :=
  {| args_utm_id := Some utm_id;
     header_X_Forwarded_For := Some "203.0.113.7";
     header_User_Agent := user_agent;
     remote_addr := Some "10.0.0.1";
     cookie_secure_session := None |}.

Definition empty_store : store := {| Users := []; LinkHits := [] |}.

Definition logout_request (cookie : option string) : request :=
  {| args_utm_id := None;
     header_X_Forwarded_For := None;
     header_User_Agent := Some "Mozilla/5.0";
     remote_addr := Some "10.0.0.1";
     cookie_secure_session := cookie |}.

(** ** More vocabulary: groups, store invariants, reachable stores *)

(** The link belongs to month [m] of year [y]. *)
Definition in_month (y m : Z) (kv : link_item) : bool :=
  (year (GeneratedOn (snd kv)) =? y) && (month (GeneratedOn (snd kv)) =? m).

(** What a grouping holds for month [m] of year [y], nothing when it has no
    such group. *)
Definition group_of (y m : Z) (g : grouped) : list link_item :=
  match Dict.get y g with
  | Some months =>
      match Dict.get m months with
      | Some items => items
      | None => []
      end
  | None => []
  end.

(** Every link of every user has a node in the hit index. *)
Definition indexed (st : store) : Prop :=
  forall u links k link,
    Dict.get u (Users st) = Some links -> In (k, link) links ->
    exists node, Dict.get k (LinkHits st) = Some node.





(** The number of hits that the overview would show for a link. *)
Definition hit_count (st : store) (utm_id : string) : option nat :=
  match Dict.get utm_id (LinkHits st) with
  | Some node => Some (len node)
  | None => None
  end.


(** Users U and V made links in 2023, 2024 and 2025. *)
Definition three_years_store : store :=
  {| Users :=
       [("U", [("a", stored "A" "2024-03-01 10:00:00.250000+00:00");
               ("b", stored "B" "2023-12-31 23:59:59.999999+00:00");
               ("c", stored "C" "2025-01-01 00:00:00.000001+00:00");
               ("d", stored "D" "2024-03-01 10:00:00.250000+00:00")]);
        ("V", [("e", stored "E" "2024-06-01 12:00:00.250000+02:00")])];
     LinkHits :=
       [("a", HitsPlaceholder ""); ("b", HitsPlaceholder "");
        ("c", HitsPlaceholder ""); ("d", HitsPlaceholder "");
        ("e", HitsPlaceholder "")] |}.

(** An identity service that knows one cookie, of user U. *)
Definition one_session : identity :=
  {| verify_token := fun c =>
       if String.eqb c "cookie-of-U" then Claims "U" else InvalidSessionCookieError;
     revoke_refresh_tokens := fun _ => None |}.

(** A sign-in service that knows one password and one session, of user U. *)
Definition one_account : login_world :=
  {| check_cookie := fun c =>
       if String.eqb c "cookie-of-U" then CheckedClaims
       else CheckedRaises FirebaseError;
     api_key := Some "key";
     post_sign_in := fun _ user pass =>
       if String.eqb user "u@example.org" && String.eqb pass "secret"
       then inr (200, inr "id-token")
       else inr (400, inl (Builtin KeyError));
     create_session_cookie := fun token => inr ("cookie-for-" ++ token)%string |}.


Definition generate_form : link_form :=
  {| email_title := "Offer"; email_address := "to@example.org" |}.

(** * Properties *)

(** ** Dictionaries *)

Section DictFacts.
Context {K V : Type} `{KeyEq K}.

Lemma keqb_refl (k : K) : keqb k k = true.
Proof. destruct (keqb_spec k k); congruence. Qed.

Lemma keqb_neq (k k' : K) : k <> k' -> keqb k k' = false.
Proof. intros Hne. destruct (keqb_spec k k'); congruence. Qed.

Lemma get_set_same (k : K) (v : V) d : Dict.get k (Dict.set k v d) = Some v.
Proof.
  induction d as [|[k' v'] d IH]; simpl.
  - now rewrite keqb_refl.
  - destruct (keqb_spec k k') as [->|Hne]; simpl.
    + now rewrite keqb_refl.
    + now rewrite (keqb_neq _ _ Hne).
Qed.

Lemma get_set_other (k k0 : K) (v : V) d :
  k0 <> k -> Dict.get k0 (Dict.set k v d) = Dict.get k0 d.
Proof.
  intros Hne. induction d as [|[k' v'] d IH]; simpl.
  - now rewrite (keqb_neq _ _ Hne).
  - destruct (keqb_spec k k') as [Heq|Hkk']; simpl.
    + subst k'. now rewrite (keqb_neq _ _ Hne).
    + now rewrite IH.
Qed.

Lemma get_None_keys (k : K) (d : list (K * V)) :
  Dict.get k d = None <-> ~ In k (Dict.keys d).
Proof.
  induction d as [|[k' v'] d IH]; simpl.
  - tauto.
  - destruct (keqb_spec k k') as [->|Hne].
    + split; [discriminate | intros Hn; exfalso; apply Hn; now left].
    + rewrite IH. split; [intros Hn [Heq|Hin]; congruence | tauto].
Qed.

Lemma get_Some_In (k : K) (v : V) d : Dict.get k d = Some v -> In (k, v) d.
Proof.
  induction d as [|[k' v'] d IH]; simpl; [discriminate|].
  destruct (keqb_spec k k') as [->|Hne].
  - intros [= ->]. now left.
  - intros Hg. right. now apply IH.
Qed.

Lemma set_fresh (k : K) (v : V) d :
  Dict.get k d = None -> Dict.set k v d = (d ++ [(k, v)])%list.
Proof.
  induction d as [|[k' v'] d IH]; simpl; [reflexivity|].
  destruct (keqb k k'); [discriminate|].
  intros Hg. now rewrite IH.
Qed.

Lemma In_set (k : K) (v : V) d (kv : K * V) :
  In kv (Dict.set k v d) -> kv = (k, v) \/ In kv d.
Proof.
  induction d as [|[k' v'] d IH]; simpl.
  - intros [<-|[]]. now left.
  - destruct (keqb_spec k k') as [->|Hne]; simpl.
    + intros [<-|Hin]; auto.
    + intros [<-|Hin]; auto. destruct (IH Hin); auto.
Qed.

Lemma Forall_set (P : K * V -> Prop) (k : K) (v : V) d :
  P (k, v) -> Forall P d -> Forall P (Dict.set k v d).
Proof.
  intros Hkv Hd. apply Forall_forall. intros kv Hin.
  destruct (In_set _ _ _ _ Hin) as [->|Hin']; [assumption|].
  now apply (proj1 (Forall_forall P d) Hd).
Qed.

Lemma keys_set_incl (k k0 : K) (v : V) d :
  In k0 (Dict.keys (Dict.set k v d)) -> k0 = k \/ In k0 (Dict.keys d).
Proof.
  unfold Dict.keys. rewrite in_map_iff. intros [[k1 v1] [<- Hin]].
  destruct (In_set _ _ _ _ Hin) as [[= -> ->]|Hin']; simpl; [now left|].
  right. now apply (in_map fst) in Hin'.
Qed.

Lemma keys_set_NoDup (k : K) (v : V) d :
  NoDup (Dict.keys d) -> NoDup (Dict.keys (Dict.set k v d)).
Proof.
  induction d as [|[k' v'] d IH]; simpl; intros Hnd.
  - constructor; [tauto | constructor].
  - inversion Hnd as [|? ? Hnotin Hnd']; subst.
    destruct (keqb_spec k k') as [->|Hne]; simpl.
    + now constructor.
    + constructor; [|now apply IH].
      intros Hin. destruct (keys_set_incl _ _ _ _ Hin); congruence.
Qed.

(** [dict] of pairs with distinct keys keeps them as they are. *)
Lemma of_list_NoDup (l : list (K * V)) :
  NoDup (Dict.keys l) -> Dict.of_list l = l.
Proof.
  unfold Dict.of_list.
  enough (Hgen : forall d,
             NoDup (Dict.keys (d ++ l)%list) ->
             fold_left (fun d kv => Dict.set (fst kv) (snd kv) d) l d
             = (d ++ l)%list).
  { intros Hnd. now apply (Hgen []). }
  induction l as [|[k v] l IH]; intros d Hnd; simpl.
  - now rewrite app_nil_r.
  - assert (Hfresh : Dict.get k d = None).
    { apply get_None_keys. intros Hin.
      unfold Dict.keys in Hnd. rewrite map_app in Hnd. simpl in Hnd.
      apply NoDup_remove_2 in Hnd. apply Hnd, in_or_app. now left. }
    rewrite (set_fresh _ _ _ Hfresh), IH.
    + now rewrite <- app_assoc.
    + now rewrite <- app_assoc.
Qed.
End DictFacts.

(** ** Sorting *)

Section SortFacts.
Context {A : Type} (key : A -> Z).

Lemma insert_Permutation (x : A) l :
  Permutation (insert (key_lt key) x l) (x :: l).
Proof.
  induction l as [|y l IH]; simpl; [reflexivity|].
  destruct (key_lt key y x); [|reflexivity].
  rewrite IH. apply perm_swap.
Qed.

Lemma sort_stable_Permutation l : Permutation (sort_stable (key_lt key) l) l.
Proof.
  induction l as [|x l IH]; simpl; [reflexivity|].
  rewrite insert_Permutation. now constructor.
Qed.

Lemma sorted_Permutation (reverse : bool) l :
  Permutation (sorted (key_lt key) reverse l) l.
Proof.
  unfold sorted. destruct reverse.
  - rewrite <- Permutation_rev, sort_stable_Permutation.
    symmetry. apply Permutation_rev.
  - apply sort_stable_Permutation.
Qed.

Lemma insert_ascending (x : A) l :
  ascending key l -> ascending key (insert (key_lt key) x l).
Proof.
  unfold ascending.
  induction l as [|y l IH]; simpl; intros Hs.
  - constructor; constructor.
  - inversion Hs as [|? ? Hs' Hall]; subst.
    unfold key_lt at 1. destruct (Z.ltb_spec (key y) (key x)) as [Hlt|Hge].
    + constructor; [now apply IH|].
      apply Forall_forall. intros z Hz.
      apply (Permutation_in _ (insert_Permutation x l)) in Hz.
      destruct Hz as [<-|Hz]; [lia|].
      now apply (proj1 (Forall_forall _ _) Hall).
    + constructor; [assumption|].
      constructor; [assumption|].
      apply Forall_forall. intros z Hz.
      pose proof (proj1 (Forall_forall _ _) Hall z Hz). simpl in *. lia.
Qed.

Lemma sort_stable_ascending l : ascending key (sort_stable (key_lt key) l).
Proof.
  induction l as [|x l IH]; simpl; [constructor|].
  now apply insert_ascending.
Qed.

Lemma StronglySorted_snoc (R : A -> A -> Prop) l x :
  StronglySorted R l -> Forall (fun y => R y x) l ->
  StronglySorted R (l ++ [x]).
Proof.
  induction l as [|y l IH]; simpl; intros Hs Hall.
  - constructor; constructor.
  - inversion Hs as [|? ? Hs' Hy]; subst.
    inversion Hall as [|? ? Hyx Hall']; subst.
    constructor; [now apply IH|].
    apply Forall_app. split; [assumption|]. constructor; [assumption|constructor].
Qed.

Lemma ascending_rev l : ascending key l -> descending key (rev l).
Proof.
  unfold ascending, descending.
  induction l as [|x l IH]; simpl; intros Hs; [constructor|].
  inversion Hs as [|? ? Hs' Hall]; subst.
  apply StronglySorted_snoc; [now apply IH|].
  apply Forall_forall. intros y Hy. apply in_rev in Hy.
  now apply (proj1 (Forall_forall _ _) Hall).
Qed.

(** [sorted(..., reverse=True)] is descending in the key. *)
Lemma sorted_reverse_descending l : descending key (sorted (key_lt key) true l).
Proof. apply ascending_rev, sort_stable_ascending. Qed.
End SortFacts.

(** ** Loops that can raise *)

Section DictFromFacts.
Context {X K W : Type} `{KeyEq K} (kv : X -> result (K * W)).

Lemma dict_from_raised l e : fold_left (dict_step kv) l (inl e) = inl e.
Proof. induction l as [|x l IH]; simpl; [reflexivity | exact IH]. Qed.

(** Distinct keys: the dictionary is the list of the computed pairs. *)
Lemma dict_from_pairs l l' :
  Forall2 (fun x kw => kv x = inr kw) l l' ->
  NoDup (Dict.keys l') ->
  dict_from kv l = inr l'.
Proof.
  unfold dict_from.
  enough (Hgen : forall d,
             Forall2 (fun x kw => kv x = inr kw) l l' ->
             NoDup (Dict.keys (d ++ l')%list) ->
             fold_left (dict_step kv) l (inr d) = inr (d ++ l')%list).
  { intros HF Hnd. now apply (Hgen []). }
  intros d HF. revert d.
  induction HF as [|x [k w] l l' Hx _ IH]; intros d Hnd; simpl.
  - now rewrite app_nil_r.
  - rewrite Hx. simpl.
    assert (Hfresh : Dict.get k d = None).
    { apply get_None_keys. intros Hin.
      unfold Dict.keys in Hnd. rewrite map_app in Hnd. simpl in Hnd.
      apply NoDup_remove_2 in Hnd. apply Hnd, in_or_app. now left. }
    rewrite (set_fresh _ _ _ Hfresh), IH.
    + now rewrite <- app_assoc.
    + now rewrite <- app_assoc.
Qed.

(** Whatever the keys: every value of the dictionary was computed from an
    item. *)
Lemma dict_from_values (Q : W -> Prop) l d :
  (forall x kw, In x l -> kv x = inr kw -> Q (snd kw)) ->
  dict_from kv l = inr d ->
  Forall (fun kw => Q (snd kw)) d.
Proof.
  unfold dict_from. intros HQ.
  enough (Hgen : forall d0 d,
             Forall (fun kw => Q (snd kw)) d0 ->
             fold_left (dict_step kv) l (inr d0) = inr d ->
             Forall (fun kw => Q (snd kw)) d).
  { apply Hgen. constructor. }
  induction l as [|x l IH]; intros d0 d1 Hd0; simpl.
  - now intros [= <-].
  - destruct (kv x) as [e|kw] eqn:Hx; simpl.
    + now rewrite dict_from_raised.
    + apply IH.
      * intros y kw' Hy. apply HQ. now right.
      * apply Forall_set; [|assumption]. simpl.
        apply (HQ x kw); [now left | assumption].
Qed.
End DictFromFacts.

(** ** Grouping *)

Section FlatFacts.
Context {K V X : Type} `{KeyEq K} (f : V -> list X).

Lemma flat_map_set (k : K) (v : V) d :
  Permutation
    (flat_map (fun kv => f (snd kv)) (Dict.set k v d)
       ++ match Dict.get k d with Some v0 => f v0 | None => [] end)
    (f v ++ flat_map (fun kv => f (snd kv)) d).
Proof.
  induction d as [|[k' v'] d IH]; simpl.
  - now rewrite !app_nil_r.
  - destruct (keqb k k'); simpl.
    + rewrite <- app_assoc. apply Permutation_app_head, Permutation_app_comm.
    + rewrite <- app_assoc, IH.
      rewrite !app_assoc. apply Permutation_app_tail, Permutation_app_comm.
Qed.
End FlatFacts.

Lemma group_step_items (acc : grouped) (kv : link_item) :
  Permutation (all_items (group_step acc kv)) (kv :: all_items acc).
Proof.
  unfold group_step, all_items.
  set (y := year (GeneratedOn (snd kv))).
  set (m := month (GeneratedOn (snd kv))).
  set (months := match Dict.get y acc with Some ms => ms | None => [] end).
  set (items := match Dict.get m months with Some l => l | None => [] end).
  assert (Hinner : Permutation
            (flat_map snd (Dict.set m (items ++ [kv])%list months))
            (kv :: flat_map snd months)).
  { pose proof (flat_map_set (fun l : list link_item => l) m
                  (items ++ [kv])%list months) as Hp.
    cbv beta in Hp.
    replace (match Dict.get m months with Some v0 => v0 | None => [] end)
      with items in Hp by reflexivity.
    apply (Permutation_app_inv_r items).
    etransitivity; [exact Hp|].
    rewrite <- app_assoc. simpl.
    rewrite (Permutation_app_comm items). reflexivity. }
  pose proof (flat_map_set (fun ms : dict Z (list link_item) => flat_map snd ms)
                y (Dict.set m (items ++ [kv])%list months) acc) as Hp.
  cbv beta in Hp.
  replace (match Dict.get y acc with
           | Some v0 => flat_map snd v0
           | None => []
           end) with (flat_map snd months) in Hp
    by (unfold months; now destruct (Dict.get y acc)).
  apply (Permutation_app_inv_r (flat_map snd months)).
  etransitivity; [exact Hp|].
  rewrite Hinner. simpl. constructor. apply Permutation_app_comm.
Qed.

Lemma group_step_ok (acc : grouped) (kv : link_item) :
  valid_month kv -> grouped_ok acc -> grouped_ok (group_step acc kv).
Proof.
  intros Hm [Hnd Hall]. unfold group_step.
  set (y := year (GeneratedOn (snd kv))).
  set (m := month (GeneratedOn (snd kv))).
  set (months := match Dict.get y acc with Some ms => ms | None => [] end).
  set (items := match Dict.get m months with Some l => l | None => [] end).
  assert (Hmonths : NoDup (Dict.keys months) /\
                    Forall (fun m => 1 <= m <= 12) (Dict.keys months)).
  { unfold months. destruct (Dict.get y acc) as [ms|] eqn:Hg.
    - apply get_Some_In in Hg.
      exact (proj1 (Forall_forall _ _) Hall _ Hg).
    - split; constructor. }
  destruct Hmonths as [Hnd' Hall'].
  split; [now apply keys_set_NoDup|].
  apply Forall_set; [|assumption]. simpl. split.
  - now apply keys_set_NoDup.
  - apply Forall_forall. intros m' Hin.
    destruct (keys_set_incl _ _ _ _ Hin) as [->|Hin'].
    + exact Hm.
    + exact (proj1 (Forall_forall _ _) Hall' _ Hin').
Qed.

Lemma group_items (l : list link_item) : Permutation (all_items (group l)) l.
Proof.
  unfold group.
  enough (Hgen : forall acc,
             Permutation (all_items (fold_left group_step l acc))
               (all_items acc ++ l)).
  { exact (Hgen []). }
  induction l as [|kv l IH]; intros acc; simpl.
  - now rewrite app_nil_r.
  - rewrite IH, group_step_items. simpl. apply Permutation_middle.
Qed.

Lemma group_ok (l : list link_item) : Forall valid_month l -> grouped_ok (group l).
Proof.
  unfold group. intros Hall.
  enough (Hgen : forall acc, grouped_ok acc ->
                             grouped_ok (fold_left group_step l acc)).
  { apply Hgen. split; constructor. }
  induction Hall as [|kv l Hkv _ IH]; intros acc Hacc; simpl.
  - assumption.
  - apply IH. now apply group_step_ok.
Qed.

(** ** Sorting the groups *)

Lemma sort_items_keys (g : grouped) : Dict.keys (sort_items g) = Dict.keys g.
Proof. unfold sort_items, Dict.keys. rewrite map_map. reflexivity. Qed.

Lemma sort_items_ok (g : grouped) : grouped_ok g -> grouped_ok (sort_items g).
Proof.
  intros [Hnd Hall]. split; [now rewrite sort_items_keys|].
  unfold sort_items. apply Forall_map.
  apply (Forall_impl _ (P := fun ym => NoDup (Dict.keys (snd ym)) /\
             Forall (fun m => 1 <= m <= 12) (Dict.keys (snd ym)))); [|assumption].
  intros [y months] Hym. simpl in *. unfold Dict.keys in *.
  now rewrite map_map.
Qed.

Lemma sort_items_items (g : grouped) :
  Permutation (all_items (sort_items g)) (all_items g).
Proof.
  unfold all_items, sort_items.
  induction g as [|[y months] g IH]; simpl; [reflexivity|].
  apply Permutation_app; [|exact IH].
  clear IH. induction months as [|[m items] months IH]; simpl; [reflexivity|].
  apply Permutation_app; [|exact IH].
  exact (sorted_Permutation generated true items).
Qed.

Lemma sort_items_descending (g : grouped) :
  Forall (fun ym => months_descending (snd ym)) (sort_items g).
Proof.
  unfold sort_items. apply Forall_map, Forall_forall. intros [y months] _. simpl.
  unfold months_descending. apply Forall_map, Forall_forall. intros [m items] _.
  exact (sorted_reverse_descending generated items).
Qed.

Lemma of_list_values {K V : Type} `{KeyEq K} (Q : V -> Prop) (l : list (K * V)) :
  Forall (fun kv => Q (snd kv)) l -> Forall (fun kv => Q (snd kv)) (Dict.of_list l).
Proof.
  unfold Dict.of_list. intros Hl.
  enough (Hgen : forall d, Forall (fun kv => Q (snd kv)) d ->
             Forall (fun kv => Q (snd kv))
               (fold_left (fun d kv => Dict.set (fst kv) (snd kv) d) l d)).
  { apply Hgen. constructor. }
  induction Hl as [|kv l Hkv _ IH]; intros d Hd; simpl; [assumption|].
  apply IH. now apply Forall_set.
Qed.

Lemma sort_years_descending (g : grouped) :
  Forall (fun ym => months_descending (snd ym)) g ->
  Forall (fun ym => months_descending (snd ym)) (sort_years g).
Proof.
  intros Hg. unfold sort_years. apply of_list_values.
  eapply Permutation_Forall; [|exact Hg].
  symmetry. apply (sorted_Permutation (A := Z * dict Z (list link_item)) fst).
Qed.

(** With distinct years [dict(sorted(...))] is the sorted list itself. *)
Lemma sort_years_sorted (g : grouped) :
  NoDup (Dict.keys g) -> sort_years g = sorted by_year true g.
Proof.
  intros Hnd. unfold sort_years. apply of_list_NoDup.
  eapply Permutation_NoDup; [|exact Hnd].
  unfold Dict.keys. apply Permutation_map. symmetry.
  apply (sorted_Permutation (A := Z * dict Z (list link_item)) fst).
Qed.

Lemma sort_years_Permutation (g : grouped) :
  NoDup (Dict.keys g) -> Permutation (sort_years g) g.
Proof.
  intros Hnd. rewrite (sort_years_sorted g Hnd).
  apply (sorted_Permutation (A := Z * dict Z (list link_item)) fst).
Qed.

Lemma sort_years_ok (g : grouped) : grouped_ok g -> grouped_ok (sort_years g).
Proof.
  intros [Hnd Hall].
  pose proof (sort_years_Permutation g Hnd) as Hp. split.
  - eapply Permutation_NoDup; [|exact Hnd].
    unfold Dict.keys. apply Permutation_map. now symmetry.
  - eapply Permutation_Forall; [|exact Hall]. now symmetry.
Qed.

Lemma sort_years_items (g : grouped) :
  NoDup (Dict.keys g) -> Permutation (all_items (sort_years g)) (all_items g).
Proof.
  intros Hnd. unfold all_items.
  apply Permutation_flat_map, sort_years_Permutation, Hnd.
Qed.

Lemma descending_keys_strict {V : Type} (l : list (Z * V)) :
  descending fst l -> NoDup (Dict.keys l) ->
  StronglySorted (fun y1 y2 => y2 < y1) (Dict.keys l).
Proof.
  unfold descending.
  induction 1 as [|ym l' Hs IH Hall]; simpl; intros Hnd; [constructor|].
  inversion Hnd as [|? ? Hnotin Hnd']; subst.
  constructor; [now apply IH|].
  apply Forall_forall. intros y Hy.
  unfold Dict.keys in Hy. apply in_map_iff in Hy. destruct Hy as [ym' [<- Hin]].
  pose proof (proj1 (Forall_forall _ _) Hall _ Hin) as Hle.
  assert (fst ym' <> fst ym).
  { intros Heq. apply Hnotin. rewrite <- Heq. now apply in_map. }
  cbv beta in Hle |- *. lia.
Qed.

(** The years come out in strictly descending order. *)
Lemma sort_years_years (g : grouped) :
  NoDup (Dict.keys g) ->
  StronglySorted (fun y1 y2 => y2 < y1) (Dict.keys (sort_years g)).
Proof.
  intros Hnd.
  assert (Hnd' : NoDup (Dict.keys (sort_years g))).
  { eapply Permutation_NoDup; [|exact Hnd].
    unfold Dict.keys. apply Permutation_map. symmetry.
    now apply sort_years_Permutation. }
  rewrite (sort_years_sorted g Hnd) in *.
  apply descending_keys_strict; [|assumption].
  exact (sorted_reverse_descending (A := Z * dict Z (list link_item)) fst g).
Qed.

(** ** Month names *)

Ltac calendar_month m H :=
  assert (m = 1 \/ m = 2 \/ m = 3 \/ m = 4 \/ m = 5 \/ m = 6 \/ m = 7 \/
          m = 8 \/ m = 9 \/ m = 10 \/ m = 11 \/ m = 12) as H by lia;
  repeat (destruct H as [H|H]; [subst m|]); [..|subst m].

Lemma py_index_month (m : Z) :
  1 <= m <= 12 -> py_index month_names m = Some (month_name m).
Proof. intros Hm. calendar_month m H; reflexivity. Qed.

Lemma index_of_month_name (m : Z) :
  1 <= m <= 12 -> index_of (month_name m) month_names = m.
Proof. intros Hm. calendar_month m H; reflexivity. Qed.

Lemma month_name_inj (m m' : Z) :
  1 <= m <= 12 -> 1 <= m' <= 12 -> month_name m = month_name m' -> m = m'.
Proof.
  intros Hm Hm' Heq.
  rewrite <- (index_of_month_name m Hm), <- (index_of_month_name m' Hm').
  now rewrite Heq.
Qed.

Lemma NoDup_map_inj_in {A B : Type} (f : A -> B) (l : list A) :
  (forall x y, In x l -> In y l -> f x = f y -> x = y) ->
  NoDup l -> NoDup (map f l).
Proof.
  intros Hinj Hnd. induction Hnd as [|x l Hnotin Hnd IH]; simpl; constructor.
  - intros Hin. apply in_map_iff in Hin. destruct Hin as [y [Heq Hy]].
    apply Hnotin. rewrite (Hinj x y); [assumption | now left | now right | now symmetry].
  - apply IH. intros a b Ha Hb. apply Hinj; now right.
Qed.

Lemma name_months_named (months : dict Z (list link_item)) :
  NoDup (Dict.keys months) ->
  Forall (fun m => 1 <= m <= 12) (Dict.keys months) ->
  name_months months
  = inr (map (fun mi : Z * list link_item => (month_name (fst mi), snd mi)) months).
Proof.
  intros Hnd Hall. unfold name_months. apply dict_from_pairs.
  - clear Hnd. induction months as [|[m items] months IH]; simpl; constructor.
    + simpl. inversion Hall; subst. now rewrite py_index_month.
    + apply IH. now inversion Hall.
  - unfold Dict.keys in *. rewrite map_map. simpl.
    rewrite <- (map_map fst month_name).
    apply NoDup_map_inj_in; [|assumption].
    intros m m' Hm Hm'.
    apply month_name_inj; now apply (proj1 (Forall_forall _ _) Hall).
Qed.

Lemma with_months_named (g : grouped) : grouped_ok g -> with_months g = inr (named g).
Proof.
  intros [Hnd Hall]. unfold with_months. apply dict_from_pairs.
  - clear Hnd. unfold named.
    induction Hall as [|[y months] g [Hnd' Hm] _ IH]; simpl; constructor.
    + simpl in *. now rewrite name_months_named.
    + exact IH.
  - unfold named, Dict.keys in *. now rewrite map_map.
Qed.

Lemma all_items_named (g : grouped) : all_items (named g) = all_items g.
Proof.
  unfold all_items, named.
  induction g as [|[y months] g IH]; simpl; [reflexivity|].
  rewrite IH. f_equal.
  clear IH. induction months as [|[m items] months IH]; simpl; [reflexivity|].
  now rewrite IH.
Qed.

Lemma keys_named (g : grouped) : Dict.keys (named g) = Dict.keys g.
Proof. unfold named, Dict.keys. now rewrite map_map. Qed.

Lemma name_months_descending (months : dict Z (list link_item)) months' :
  months_descending months -> name_months months = inr months' ->
  months_descending months'.
Proof.
  intros Hd Hn. unfold name_months in Hn.
  apply (dict_from_values _ (descending generated) _ _) in Hn; [exact Hn|].
  intros [m items] [name items'] Hin. simpl.
  destruct (py_index month_names m); [|discriminate].
  intros [= _ <-]. exact (proj1 (Forall_forall _ _) Hd _ Hin).
Qed.

Lemma with_months_descending (g : grouped) (out : overview) :
  Forall (fun ym => months_descending (snd ym)) g ->
  with_months g = inr out ->
  Forall (fun ym => months_descending (snd ym)) out.
Proof.
  intros Hd Hw. unfold with_months in Hw.
  apply (dict_from_values _ months_descending _ _) in Hw; [exact Hw|].
  intros [y months] [y' months'] Hin. simpl.
  destruct (name_months months) as [e|ms] eqn:Hn; simpl; [discriminate|].
  intros [= _ <-].
  apply (name_months_descending months); [|assumption].
  exact (proj1 (Forall_forall _ _) Hd _ Hin).
Qed.

(** ** The overview *)

Section OverviewFacts.
Variable strptime : string -> option datetime.

Lemma traverse_add_hits hits (tl : dict string (link_dict string)) :
  exists with_hits,
    traverse (add_hits (Some hits)) tl = inr with_hits /\
    Forall2 (fun kv kw => fst kw = fst kv /\
                          MailTitle (snd kw) = MailTitle (snd kv) /\
                          MailAddress (snd kw) = MailAddress (snd kv) /\
                          GeneratedOn (snd kw) = GeneratedOn (snd kv) /\
                          Hits (snd kw) = annotated hits (fst kv) (snd kv))
      tl with_hits.
Proof.
  induction tl as [|[k item] tl [with_hits [Ht HF]]]; simpl.
  - exists []. split; [reflexivity | constructor].
  - rewrite Ht. unfold annotated. simpl.
    destruct (Dict.get k hits) as [node|] eqn:Hg; simpl; eexists;
      (split; [reflexivity|]); constructor; simpl; rewrite ?Hg; auto 10.
Qed.

Lemma traverse_parse_date (tl : dict string (link_dict string)) :
  parses strptime tl = true ->
  exists parsed,
    traverse (parse_date strptime) tl = inr parsed /\
    Forall valid_month parsed /\
    Forall2 (fun kv kw => fst kw = fst kv /\
                          MailTitle (snd kw) = MailTitle (snd kv) /\
                          MailAddress (snd kw) = MailAddress (snd kv) /\
                          strptime (GeneratedOn (snd kv)) = Some (GeneratedOn (snd kw)) /\
                          Hits (snd kw) = Hits (snd kv))
      tl parsed.
Proof.
  induction tl as [|[k item] tl IH]; simpl.
  - intros _. exists []. repeat split; constructor.
  - unfold parse_date at 1.
    destruct (strptime (GeneratedOn item)) as [d|] eqn:Hd; [|discriminate].
    intros Hp. apply andb_prop in Hp. destruct Hp as [Hm Hp].
    destruct (IH Hp) as [parsed [Ht [Hv HF]]]. rewrite Ht. simpl.
    eexists. split; [reflexivity|]. split.
    + constructor; [|assumption]. unfold valid_month. simpl. lia.
    + constructor; simpl; auto 10.
Qed.

Lemma parses_with_hits (tl with_hits : dict string (link_dict string)) :
  Forall2 (fun kv kw => GeneratedOn (snd kw) = GeneratedOn (snd kv)) tl with_hits ->
  parses strptime with_hits = parses strptime tl.
Proof.
  induction 1 as [|kv kw tl tl' Hg _ IH]; simpl; [reflexivity|].
  now rewrite Hg, IH.
Qed.

(** On well-formed timestamps the overview is built, and it holds the
    entries of the stored links, each once. *)
Lemma build_overview_renders hits (tl : dict string (link_dict string)) :
  parses strptime tl = true ->
  exists parsed out,
    build_overview strptime (Some hits) tl = inr out /\
    Forall2 (shown strptime hits) tl parsed /\
    Permutation (all_items out) parsed /\
    StronglySorted (fun y1 y2 => y2 < y1) (Dict.keys out).
Proof.
  intros Hp. unfold build_overview.
  destruct (traverse_add_hits hits tl) as [with_hits [Ht HF1]].
  assert (Hp' : parses strptime with_hits = true).
  { rewrite <- Hp. apply parses_with_hits.
    eapply Forall2_impl; [|exact HF1]. simpl. tauto. }
  destruct (traverse_parse_date with_hits Hp') as [parsed [Ht' [Hv HF2]]].
  rewrite Ht. simpl. rewrite Ht'. simpl.
  pose proof (group_ok parsed Hv) as Hok.
  pose proof (sort_items_ok _ Hok) as Hok'.
  pose proof (sort_years_ok _ Hok') as Hok''.
  rewrite (with_months_named _ Hok'').
  exists parsed. eexists. split; [reflexivity|]. split; [|split].
  - clear - HF1 HF2. revert parsed HF2.
    induction HF1 as [|kv kw tl tl' H1 _ IH]; intros parsed HF2;
      inversion HF2 as [|? kx ? parsed' H2 HF2']; subst; constructor.
    + unfold shown.
      destruct H1 as (Hk & Ht & Ha & Hg & Hh), H2 as (Hk' & Ht' & Ha' & Hg' & Hh').
      rewrite Hk', Ht', Ha', Hh', <- Hg. auto.
    + now apply IH.
  - rewrite all_items_named, (sort_years_items _ (proj1 Hok')),
      sort_items_items.
    apply group_items.
  - rewrite keys_named. apply sort_years_years. exact (proj1 Hok').
Qed.

(** Whenever the overview is built, every month of it descends in
    [GeneratedOn]. *)
Lemma build_overview_descending link_hits tl out :
  build_overview strptime link_hits tl = inr out ->
  Forall (fun ym => months_descending (snd ym)) out.
Proof.
  unfold build_overview.
  destruct (traverse (add_hits link_hits) tl) as [e|with_hits]; simpl;
    [discriminate|].
  destruct (traverse (parse_date strptime) with_hits) as [e|parsed]; simpl;
    [discriminate|].
  apply with_months_descending, sort_years_descending, sort_items_descending.
Qed.

Lemma tracklist_renders_inv st sess out b :
  tracklist strptime st sess = RenderTrackList out b ->
  exists u tl,
    uid sess = Some u /\ get_Users st u = Some tl /\
    build_overview strptime (get_LinkHits st) tl = inr out /\ b = false.
Proof.
  unfold tracklist.
  destruct (uid sess) as [u|] eqn:Hu; [|discriminate].
  destruct (get_Users st u) as [tl|] eqn:Hg; [|discriminate].
  destruct (build_overview strptime (get_LinkHits st) tl) as [e|o] eqn:Hb;
    [discriminate|].
  intros [= <- <-]. exists u, tl. auto.
Qed.
End OverviewFacts.

(** ** [tracklist]: the specified properties *)

Lemma get_LinkHits_nonempty (st : store) :
  LinkHits st <> [] -> get_LinkHits st = Some (LinkHits st).
Proof.
  unfold get_LinkHits, ref_get. destruct (LinkHits st); [congruence | reflexivity].
Qed.

Lemma Forall2_In_l {A B : Type} (R : A -> B -> Prop) l l' x :
  Forall2 R l l' -> In x l -> exists y, In y l' /\ R x y.
Proof.
  induction 1 as [|a b l l' Hab _ IH]; simpl; [tauto|].
  intros [->|Hin].
  - exists b. split; [now left | assumption].
  - destruct (IH Hin) as [y [Hy HR]]. exists y. split; [now right | assumption].
Qed.

Lemma shown_keys strptime hits tl parsed :
  Forall2 (shown strptime hits) tl parsed -> map fst parsed = Dict.keys tl.
Proof.
  induction 1 as [|kv kw tl parsed [Hk _] _ IH]; simpl; [reflexivity|].
  now rewrite Hk, IH.
Qed.

(** On a store whose timestamps are well formed the handler renders. *)
Lemma tracklist_renders strptime st u tl :
  get_Users st u = Some tl ->
  LinkHits st <> [] ->
  parses strptime tl = true ->
  exists parsed out,
    tracklist strptime st {| uid := Some u |} = RenderTrackList out false /\
    Forall2 (shown strptime (LinkHits st)) tl parsed /\
    Permutation (all_items out) parsed /\
    StronglySorted (fun y1 y2 => y2 < y1) (Dict.keys out).
Proof.
  intros Hu Hne Hp. unfold tracklist. simpl. rewrite Hu.
  rewrite (get_LinkHits_nonempty st Hne).
  destruct (build_overview_renders strptime (LinkHits st) tl Hp)
    as [parsed [out [Hb H]]].
  exists parsed, out. now rewrite Hb.
Qed.

(** X1.  On a store whose timestamps are well formed, the years of the
    rendered overview descend strictly (line 125). *)
Lemma tracklist_years_descending strptime st u tl :
  get_Users st u = Some tl ->
  LinkHits st <> [] ->
  parses strptime tl = true ->
  exists out,
    tracklist strptime st {| uid := Some u |} = RenderTrackList out false /\
    StronglySorted (fun y1 y2 => y2 < y1) (Dict.keys out).
Proof.
  intros Hu Hne Hp.
  destruct (tracklist_renders strptime st u tl Hu Hne Hp)
    as [parsed [out [Ht [_ [_ Hy]]]]].
  now exists out.
Qed.

(** C1.  Links of January and of March 2024, stored in that order, come out
    with January before March: the months of a year keep the order in which
    the links were read, whereas the specification has them descending (line 125
    sorts the years only, under a comment that speaks of the months). *)
Theorem tracklist_months_not_sorted :
  exists out,
    tracklist Strptime.parse january_march_store session_U
    = RenderTrackList out false /\
    map (fun ym => (fst ym, Dict.keys (snd ym))) out
    = [(2024, ["January"; "March"])].
Proof. eexists. split; [vm_compute; reflexivity | reflexivity]. Qed.

(** C7.  In every month of every year of a rendered overview the links are
    in descending order of [GeneratedOn], compared as instants. *)
Theorem tracklist_month_descending strptime st sess out b :
  tracklist strptime st sess = RenderTrackList out b ->
  forall y months name items,
    In (y, months) out -> In (name, items) months ->
    descending generated items.
Proof.
  intros Ht y months name items Hy Hm.
  destruct (tracklist_renders_inv strptime st sess out b Ht)
    as [u [tl [_ [_ [Hb _]]]]].
  pose proof (build_overview_descending strptime _ _ _ Hb) as Hd.
  pose proof (proj1 (Forall_forall _ _) Hd _ Hy) as Hmonths.
  exact (proj1 (Forall_forall _ _) Hmonths _ Hm).
Qed.

Lemma tracklist_month_descending_witness :
  tracklist Strptime.parse march_store session_U
  = RenderTrackList march_overview false /\
  descending generated
    [("b", shown_link "B" (utc 2024 3 15 9 0) (Some 1%nat));
     ("a", shown_link "A" (utc 2024 3 1 10 0) (Some 0%nat))].
Proof.
  split; [reflexivity|].
  apply (tracklist_month_descending Strptime.parse march_store session_U
           march_overview false eq_refl 2024
           (snd (hd (0, []) march_overview)) "March").
  - simpl. now left.
  - simpl. now left.
Defined.

(** C10.  On a store whose timestamps are well formed, the utm_ids of the
    rendered overview, over all years and months, are the keys of the stored
    links, each exactly once. *)
Theorem tracklist_every_link_once strptime st u tl :
  get_Users st u = Some tl ->
  NoDup (Dict.keys tl) ->
  LinkHits st <> [] ->
  parses strptime tl = true ->
  exists out,
    tracklist strptime st {| uid := Some u |} = RenderTrackList out false /\
    Permutation (map fst (all_items out)) (Dict.keys tl) /\
    NoDup (map fst (all_items out)).
Proof.
  intros Hu Hnd Hne Hp.
  destruct (tracklist_renders strptime st u tl Hu Hne Hp)
    as [parsed [out [Ht [Hs [Hperm _]]]]].
  exists out. split; [assumption|].
  assert (Hk : Permutation (map fst (all_items out)) (Dict.keys tl)).
  { rewrite <- (shown_keys _ _ _ _ Hs). now apply Permutation_map. }
  split; [assumption|].
  apply (Permutation_NoDup (Permutation_sym Hk) Hnd).
Qed.

Lemma tracklist_every_link_once_witness :
  exists out,
    tracklist Strptime.parse january_march_store {| uid := Some "U" |}
    = RenderTrackList out false /\
    Permutation (map fst (all_items out)) ["a"; "b"] /\
    NoDup (map fst (all_items out)).
Proof.
  apply (tracklist_every_link_once Strptime.parse january_march_store "U"
           [("a", stored "A" "2024-01-15 10:00:00.250000+00:00");
            ("b", stored "B" "2024-03-15 09:00:00.250000+00:00")]).
  - reflexivity.
  - simpl. repeat constructor; simpl; intuition discriminate.
  - simpl. discriminate.
  - reflexivity.
Defined.

(** C2, as the code has it.  On a store whose timestamps are well formed,
    every stored link is in the rendered overview with its title and
    address; its [Hits] is the length of its node in the hit index when the
    index has its key, and is left as stored (absent, for a link that [index]
    wrote) when the index lacks the key.  Nothing is raised for a key that
    is missing. *)
Theorem tracklist_hits strptime st u tl :
  get_Users st u = Some tl ->
  LinkHits st <> [] ->
  parses strptime tl = true ->
  exists out,
    tracklist strptime st {| uid := Some u |} = RenderTrackList out false /\
    forall k link,
      In (k, link) tl ->
      exists item,
        In (k, item) (all_items out) /\
        MailTitle item = MailTitle link /\
        MailAddress item = MailAddress link /\
        Hits item = match Dict.get k (LinkHits st) with
                    | Some node => Some (len node)
                    | None => Hits link
                    end.
Proof.
  intros Hu Hne Hp.
  destruct (tracklist_renders strptime st u tl Hu Hne Hp)
    as [parsed [out [Ht [Hs [Hperm _]]]]].
  exists out. split; [assumption|].
  intros k link Hin.
  destruct (Forall2_In_l _ _ _ _ Hs Hin) as [[k' item] [Hin' Hshown]].
  destruct Hshown as (Hk & Htitle & Haddr & _ & Hhits). simpl in *. subst k'.
  exists item. split; [|auto].
  apply (Permutation_in _ (Permutation_sym Hperm)), Hin'.
Qed.

Lemma tracklist_hits_witness :
  exists out,
    tracklist Strptime.parse march_store {| uid := Some "U" |}
    = RenderTrackList out false /\
    forall k link,
      In (k, link) [("a", stored "A" "2024-03-01 10:00:00.250000+00:00");
                    ("b", stored "B" "2024-03-15 09:00:00.250000+00:00")] ->
      exists item,
        In (k, item) (all_items out) /\
        MailTitle item = MailTitle link /\
        MailAddress item = MailAddress link /\
        Hits item = match Dict.get k (LinkHits march_store) with
                    | Some node => Some (len node)
                    | None => Hits link
                    end.
Proof.
  apply (tracklist_hits Strptime.parse march_store "U").
  - reflexivity.
  - simpl. discriminate.
  - reflexivity.
Defined.

(** C2, as the specification words it, fails: link a has no key in the hit
    index, and the overview shows it without [Hits], not with [Hits] 0. *)
Lemma tracklist_missing_key_no_hits :
  tracklist Strptime.parse missing_key_store session_U
  = RenderTrackList missing_key_overview false /\
  Dict.get "a" (LinkHits missing_key_store) = None /\
  exists item,
    In ("a", item) (all_items missing_key_overview) /\
    Hits item = None /\ Hits item <> Some 0%nat.
Proof.
  split; [reflexivity|]. split; [reflexivity|].
  exists (shown_link "A" (utc 2024 3 1 10 0) None).
  split; [simpl; auto|]. split; [reflexivity | discriminate].
Qed.

(** ** [track] *)

Lemma existsb_eqb_In (s : string) (l : list string) :
  existsb (String.eqb s) l = true <-> In s l.
Proof.
  rewrite existsb_exists. split.
  - intros [x [Hin Heq]]. apply String.eqb_eq in Heq. now subst.
  - intros Hin. exists s. split; [assumption | apply String.eqb_refl].
Qed.

Lemma self_view_owner st sess utm_id u user_data :
  uid sess = Some u -> get_Users st u = Some user_data ->
  In utm_id (Dict.keys user_data) ->
  self_view st sess utm_id = inr pixel.
Proof.
  intros Hu Hg Hin. unfold self_view. rewrite Hu, Hg.
  now rewrite (proj2 (existsb_eqb_In _ _) Hin).
Qed.

Lemma self_view_not_owner st sess utm_id :
  not_owner st sess utm_id -> self_view st sess utm_id = inl KeyError.
Proof.
  unfold self_view. intros [Hu|[u [user_data [Hu [Hg Hnotin]]]]].
  - now rewrite Hu.
  - rewrite Hu, Hg.
    destruct (existsb (String.eqb utm_id) (Dict.keys user_data)) eqn:He;
      [|reflexivity].
    now apply existsb_eqb_In in He.
Qed.

(** A request whose [utm_id] is a key of the hit index reaches the [try]. *)
Lemma track_known_id accessed_on push_id req sess st utm_id node :
  args_utm_id req = Some utm_id -> utm_id <> "" ->
  Dict.get utm_id (LinkHits st) = Some node ->
  track accessed_on push_id req sess st
  = match self_view st sess utm_id with
    | inr r => (r, st)
    | inl KeyError => record_hit accessed_on push_id req utm_id st
    | inl e => (Uncaught e, st)
    end.
Proof.
  intros Ha Hne Hg. unfold track. rewrite Ha.
  rewrite (proj2 (String.eqb_neq _ _) Hne). simpl.
  rewrite get_LinkHits_nonempty.
  - now rewrite Hg.
  - intros Hnil. rewrite Hnil in Hg. discriminate.
Qed.

(** X6.  Without a [utm_id], with an empty one, or with one that a non-empty
    hit index does not hold, the answer is 400 and nothing is written. *)
Lemma track_rejects accessed_on push_id req sess st :
  args_utm_id req = None \/ args_utm_id req = Some "" \/
  (exists utm_id, args_utm_id req = Some utm_id /\ LinkHits st <> [] /\
                  Dict.get utm_id (LinkHits st) = None) ->
  track accessed_on push_id req sess st = (Abort 400, st).
Proof.
  unfold track. intros [Ha|[Ha|[utm_id [Ha [Hne Hg]]]]]; rewrite Ha.
  - reflexivity.
  - reflexivity.
  - destruct (negb (utm_id =? "")%string); [|reflexivity].
    now rewrite (get_LinkHits_nonempty st Hne), Hg.
Qed.

Lemma push_hit_Users push_id utm_id event st :
  Users (push_hit push_id utm_id event st) = Users st.
Proof. reflexivity. Qed.

Lemma push_hit_other push_id utm_id event st other :
  other <> utm_id ->
  Dict.get other (LinkHits (push_hit push_id utm_id event st))
  = Dict.get other (LinkHits st).
Proof. intros Hne. unfold push_hit. simpl. now apply get_set_other. Qed.

(** One more record, and it is the event. *)
Lemma push_hit_count push_id utm_id event st node :
  Dict.get utm_id (LinkHits st) = Some node ->
  takes_push push_id node ->
  exists records,
    Dict.get utm_id (LinkHits (push_hit push_id utm_id event st))
    = Some (HitsRecords records) /\
    Dict.get push_id records = Some event /\
    len (HitsRecords records) = S (len node).
Proof.
  intros Hg Htakes. unfold push_hit. simpl. rewrite Hg, get_set_same.
  eexists. split; [reflexivity|]. split; [apply get_set_same|].
  destruct node as [s|records]; simpl in *.
  - now subst s.
  - rewrite (set_fresh _ _ _ Htakes), length_app. simpl. lia.
Qed.

(** X7.  What the handler does for a requester that it takes for a stranger
    and that sends a User-Agent: one event under [utm_id], holding the proxy
    header if there is one and the remote address otherwise, the User-Agent
    and the time; the other nodes and the links untouched; the pixel. *)
Lemma track_records_hit accessed_on push_id req sess st utm_id node user_agent :
  args_utm_id req = Some utm_id -> utm_id <> "" ->
  Dict.get utm_id (LinkHits st) = Some node ->
  not_owner st sess utm_id ->
  header_User_Agent req = Some user_agent ->
  takes_push push_id node ->
  exists st' records,
    track accessed_on push_id req sess st = (pixel, st') /\
    Users st' = Users st /\
    (forall other, other <> utm_id ->
       Dict.get other (LinkHits st') = Dict.get other (LinkHits st)) /\
    Dict.get utm_id (LinkHits st') = Some (HitsRecords records) /\
    Dict.get push_id records
    = Some {| IP := py_or (header_X_Forwarded_For req) (remote_addr req);
              UserAgent := user_agent; AccessedOn := accessed_on |} /\
    len (HitsRecords records) = S (len node).
Proof.
  intros Ha Hne Hg Hno Hua Htakes.
  rewrite (track_known_id _ _ _ _ _ _ _ Ha Hne Hg).
  rewrite (self_view_not_owner _ _ _ Hno).
  unfold record_hit. rewrite Hua.
  destruct (push_hit_count push_id utm_id
              {| IP := py_or (header_X_Forwarded_For req) (remote_addr req);
                 UserAgent := user_agent; AccessedOn := accessed_on |}
              st node Hg Htakes) as [records [Hr [He Hl]]].
  eexists. exists records. split; [reflexivity|].
  split; [reflexivity|]. split; [|auto].
  intros other Ho. now apply push_hit_other.
Qed.

Lemma py_or_proxy (forwarded : string) (remote : option string) :
  forwarded <> "" -> py_or (Some forwarded) remote = Some forwarded.
Proof.
  intros Hne. unfold py_or. now rewrite (proj2 (String.eqb_neq _ _) Hne).
Qed.

(** C3.  On a store whose hit index is empty, a request with an unknown
    [utm_id] is not answered with 400: looking the id up in [None] raises
    [TypeError], which [except KeyError] lets through.  Nothing is written. *)
Theorem track_unknown_id_empty_index :
  track "2024-03-16 08:00:00.500000+00:00" "-N2"
    (pixel_request "no-such-id" (Some "Mail")) {| uid := None |} empty_store
  = (Uncaught TypeError, empty_store) /\
  status_code (Uncaught TypeError) = 500.
Proof. split; reflexivity. Qed.

(** C4.  The owner's own request: the pixel, and the store as it was. *)
Theorem track_owner_view accessed_on push_id req sess st utm_id node u user_data :
  args_utm_id req = Some utm_id -> utm_id <> "" ->
  Dict.get utm_id (LinkHits st) = Some node ->
  uid sess = Some u -> get_Users st u = Some user_data ->
  In utm_id (Dict.keys user_data) ->
  track accessed_on push_id req sess st = (pixel, st).
Proof.
  intros Ha Hne Hg Hu Hud Hin.
  rewrite (track_known_id _ _ _ _ _ _ _ Ha Hne Hg).
  now rewrite (self_view_owner _ _ _ _ _ Hu Hud Hin).
Qed.

Lemma track_owner_view_witness :
  track "2024-03-16 08:00:00.500000+00:00" "-N2"
    (pixel_request "b" (Some "Mail")) session_U march_store
  = (pixel, march_store).
Proof.
  apply (track_owner_view _ _ _ _ _ "b"
           (HitsRecords
              [("-N1", {| IP := Some "203.0.113.7"; UserAgent := "Mail";
                          AccessedOn := "2024-03-16 08:00:00.500000+00:00" |})])
           "U"
           [("a", stored "A" "2024-03-01 10:00:00.250000+00:00");
            ("b", stored "B" "2024-03-15 09:00:00.250000+00:00")]).
  - reflexivity.
  - discriminate.
  - reflexivity.
  - reflexivity.
  - reflexivity.
  - simpl. auto.
Defined.

(** C5.  A session of user V, who has no links, asks for the pixel of link
    a of user U: no event is recorded and no pixel is sent, the handler
    fails with [AttributeError]. *)
Theorem track_stranger_without_links :
  track "2024-03-16 08:00:00.500000+00:00" "-N2"
    (pixel_request "a" (Some "Mail")) {| uid := Some "V" |} march_store
  = (Uncaught AttributeError, march_store).
Proof. reflexivity. Qed.

(** C6, as the code has it.  A request that would record an event but has
    no User-Agent header fails with an uncaught [KeyError], before anything
    is written. *)
Theorem track_no_user_agent accessed_on push_id req sess st utm_id node :
  args_utm_id req = Some utm_id -> utm_id <> "" ->
  Dict.get utm_id (LinkHits st) = Some node ->
  not_owner st sess utm_id ->
  header_User_Agent req = None ->
  track accessed_on push_id req sess st = (Uncaught KeyError, st).
Proof.
  intros Ha Hne Hg Hno Hua.
  rewrite (track_known_id _ _ _ _ _ _ _ Ha Hne Hg).
  rewrite (self_view_not_owner _ _ _ Hno).
  unfold record_hit. now rewrite Hua.
Qed.

Lemma track_no_user_agent_witness :
  track "2024-03-16 08:00:00.500000+00:00" "-N2"
    (pixel_request "a" None) {| uid := None |} march_store
  = (Uncaught KeyError, march_store).
Proof.
  apply (track_no_user_agent _ _ _ _ _ "a" (HitsPlaceholder "")).
  - reflexivity.
  - discriminate.
  - reflexivity.
  - left. reflexivity.
  - reflexivity.
Defined.

(** C6, as the specification words it, fails: the status is 500, not one of
    400..499. *)
Lemma missing_user_agent_is_server_error :
  let r := fst (track "2024-03-16 08:00:00.500000+00:00" "-N2"
                  (pixel_request "a" None) {| uid := None |} march_store) in
  status_code r = 500 /\ ~ (400 <= status_code r < 500).
Proof. simpl. split; [reflexivity | lia]. Qed.

(** C9.  A session whose user has no links at all: the handler raises
    [AttributeError], which nothing catches; no event is recorded and the
    pixel is not sent. *)
Theorem track_session_without_links accessed_on push_id req sess st utm_id node u :
  args_utm_id req = Some utm_id -> utm_id <> "" ->
  Dict.get utm_id (LinkHits st) = Some node ->
  uid sess = Some u -> get_Users st u = None ->
  track accessed_on push_id req sess st = (Uncaught AttributeError, st) /\
  track accessed_on push_id req sess st
  <> record_hit accessed_on push_id req utm_id st.
Proof.
  intros Ha Hne Hg Hu Hud.
  rewrite (track_known_id _ _ _ _ _ _ _ Ha Hne Hg).
  unfold self_view. rewrite Hu, Hud. split; [reflexivity|].
  unfold record_hit. destruct (header_User_Agent req); discriminate.
Qed.

Lemma track_session_without_links_witness :
  track "2024-03-16 08:00:00.500000+00:00" "-N2"
    (pixel_request "b" (Some "Mail")) {| uid := Some "W" |} march_store
  = (Uncaught AttributeError, march_store) /\
  track "2024-03-16 08:00:00.500000+00:00" "-N2"
    (pixel_request "b" (Some "Mail")) {| uid := Some "W" |} march_store
  <> record_hit "2024-03-16 08:00:00.500000+00:00" "-N2"
       (pixel_request "b" (Some "Mail")) "b" march_store.
Proof.
  apply (track_session_without_links _ _ _ _ _ "b"
           (HitsRecords
              [("-N1", {| IP := Some "203.0.113.7"; UserAgent := "Mail";
                          AccessedOn := "2024-03-16 08:00:00.500000+00:00" |})])
           "W").
  - reflexivity.
  - discriminate.
  - reflexivity.
  - reflexivity.
  - reflexivity.
Defined.

(** ** [logout] *)

(** A cookie that the identity service refuses as invalid: the redirect to
    the login page, 303, with no message, no cookie set and no token
    revoked. *)
Lemma logout_invalid_cookie idp req :
  verify_session_cookie idp (cookie_secure_session req) = InvalidSessionCookieError ->
  logout idp req = (Redirect "login" 303 None None, []).
Proof. intros Hv. unfold logout. now rewrite Hv. Qed.

(** C8.  A logout request without the session cookie is not redirected:
    verifying [None] raises [ValueError], which
    [except auth.InvalidSessionCookieError] lets through. *)
Theorem logout_without_cookie idp :
  logout idp (logout_request None) = (Uncaught ValueError, []) /\
  status_code (fst (logout idp (logout_request None))) = 500.
Proof. split; reflexivity. Qed.

(** * Further properties of the handlers *)

(** ** [tracklist]: what each group holds *)

Lemma In_get_NoDup {K V : Type} `{KeyEq K} (k : K) (v : V) d :
  NoDup (Dict.keys d) -> In (k, v) d -> Dict.get k d = Some v.
Proof.
  induction d as [|[k' v'] d IH]; simpl; [tauto|].
  intros Hnd [Heq|Hin].
  - injection Heq as -> ->. now rewrite keqb_refl.
  - inversion Hnd as [|? ? Hnotin Hnd']; subst.
    destruct (keqb_spec k k') as [->|Hne].
    + exfalso. apply Hnotin. now apply (in_map fst) in Hin.
    + now apply IH.
Qed.

Lemma group_of_step (y m : Z) (acc : grouped) (kv : link_item) :
  group_of y m (group_step acc kv)
  = (group_of y m acc ++ (if in_month y m kv then [kv] else []))%list.
Proof.
  unfold group_of, group_step, in_month.
  set (y0 := year (GeneratedOn (snd kv))).
  set (m0 := month (GeneratedOn (snd kv))).
  destruct (Z.eqb_spec y0 y) as [<-|Hy]; simpl.
  - rewrite get_set_same.
    destruct (Z.eqb_spec m0 m) as [<-|Hm].
    + rewrite get_set_same. now destruct (Dict.get y0 acc).
    + rewrite get_set_other by congruence. rewrite app_nil_r.
      now destruct (Dict.get y0 acc).
  - rewrite get_set_other by congruence. now rewrite app_nil_r.
Qed.

(** Lines 112-115: the group of a year and month is the list of the links of
    that year and month, in the order in which they were read. *)
Lemma group_of_group (y m : Z) (l : list link_item) :
  group_of y m (group l) = filter (in_month y m) l.
Proof.
  unfold group.
  enough (Hgen : forall acc,
             group_of y m (fold_left group_step l acc)
             = (group_of y m acc ++ filter (in_month y m) l)%list).
  { exact (Hgen []). }
  induction l as [|kv l IH]; intros acc; simpl.
  - now rewrite app_nil_r.
  - rewrite IH, group_of_step, <- app_assoc.
    now destruct (in_month y m kv).
Qed.

Lemma group_step_nonempty (acc : grouped) (kv : link_item) :
  Forall (fun ym => Forall (fun mi => snd mi <> []) (snd ym)) acc ->
  Forall (fun ym => Forall (fun mi => snd mi <> []) (snd ym))
    (group_step acc kv).
Proof.
  intros Hacc. unfold group_step.
  set (y := year (GeneratedOn (snd kv))).
  set (m := month (GeneratedOn (snd kv))).
  apply Forall_set; [|assumption]. simpl.
  apply Forall_set.
  - simpl. now destruct (match Dict.get m _ with Some l => l | None => [] end).
  - destruct (Dict.get y acc) as [months|] eqn:Hg; [|constructor].
    apply get_Some_In in Hg.
    exact (proj1 (Forall_forall _ _) Hacc _ Hg).
Qed.

Lemma group_nonempty (l : list link_item) :
  Forall (fun ym => Forall (fun mi => snd mi <> []) (snd ym)) (group l).
Proof.
  unfold group.
  enough (Hgen : forall acc,
             Forall (fun ym => Forall (fun mi => snd mi <> []) (snd ym)) acc ->
             Forall (fun ym => Forall (fun mi => snd mi <> []) (snd ym))
               (fold_left group_step l acc)).
  { apply Hgen. constructor. }
  induction l as [|kv l IH]; intros acc Hacc; simpl; [assumption|].
  apply IH. now apply group_step_nonempty.
Qed.

(** The overview as a function of the parsed links, on well-formed
    timestamps. *)
Lemma build_overview_named strptime hits (tl : dict string (link_dict string)) :
  parses strptime tl = true ->
  exists parsed,
    Forall2 (shown strptime hits) tl parsed /\
    Forall valid_month parsed /\
    build_overview strptime (Some hits) tl
    = inr (named (sort_years (sort_items (group parsed)))).
Proof.
  intros Hp. unfold build_overview.
  destruct (traverse_add_hits hits tl) as [with_hits [Ht HF1]].
  assert (Hp' : parses strptime with_hits = true).
  { rewrite <- Hp. apply parses_with_hits.
    eapply Forall2_impl; [|exact HF1]. simpl. tauto. }
  destruct (traverse_parse_date strptime with_hits Hp') as [parsed [Ht' [Hv HF2]]].
  rewrite Ht. simpl. rewrite Ht'. simpl.
  exists parsed. split; [|split; [assumption|]].
  - clear - HF1 HF2. revert parsed HF2.
    induction HF1 as [|kv kw tl tl' H1 _ IH]; intros parsed HF2;
      inversion HF2 as [|? kx ? parsed' H2 HF2']; subst; constructor.
    + unfold shown.
      destruct H1 as (Hk & Ht & Ha & Hg & Hh), H2 as (Hk' & Ht' & Ha' & Hg' & Hh').
      rewrite Hk', Ht', Ha', Hh', <- Hg. auto.
    + now apply IH.
  - apply with_months_named, sort_years_ok, sort_items_ok, group_ok, Hv.
Qed.

(** A month of the overview, traced back to the grouping. *)
Lemma named_sorted_In (g : grouped) y months name items :
  grouped_ok g ->
  In (y, months) (named (sort_years (sort_items g))) ->
  In (name, items) months ->
  exists months0 m items0,
    In (y, months0) g /\ In (m, items0) months0 /\
    name = month_name m /\ items = sorted by_GeneratedOn true items0.
Proof.
  intros Hok Hy Hm.
  unfold named in Hy. apply in_map_iff in Hy.
  destruct Hy as [[y1 months1] [Heq Hy]]. simpl in Heq. injection Heq as -> <-.
  apply (Permutation_in _ (sort_years_Permutation _ (proj1 (sort_items_ok _ Hok))))
    in Hy.
  unfold sort_items in Hy. apply in_map_iff in Hy.
  destruct Hy as [[y0 months0] [Heq Hy]]. simpl in Heq. injection Heq as -> <-.
  apply in_map_iff in Hm. destruct Hm as [[m1 items1] [Heq Hm]].
  simpl in Heq. injection Heq as <- <-.
  apply in_map_iff in Hm. destruct Hm as [[m items0] [Heq Hm]].
  simpl in Heq. injection Heq as <- <-.
  now exists months0, m, items0.
Qed.

Lemma tracklist_years_descending_witness :
  exists out,
    tracklist Strptime.parse three_years_store {| uid := Some "U" |}
    = RenderTrackList out false /\
    StronglySorted (fun y1 y2 => y2 < y1) (Dict.keys out).
Proof.
  apply (tracklist_years_descending Strptime.parse three_years_store "U"
           [("a", stored "A" "2024-03-01 10:00:00.250000+00:00");
            ("b", stored "B" "2023-12-31 23:59:59.999999+00:00");
            ("c", stored "C" "2025-01-01 00:00:00.000001+00:00");
            ("d", stored "D" "2024-03-01 10:00:00.250000+00:00")]).
  - reflexivity.
  - simpl. discriminate.
  - reflexivity.
Defined.

(** X2.  On a store whose timestamps are well formed, every month of the
    rendered overview carries the name of a calendar month, is not empty,
    and holds exactly the links of that year and month: the list is the
    descending sort of those links taken in the order in which they were
    read. *)
Theorem tracklist_month_holds_its_links strptime st u tl :
  get_Users st u = Some tl ->
  LinkHits st <> [] ->
  parses strptime tl = true ->
  exists parsed out,
    tracklist strptime st {| uid := Some u |} = RenderTrackList out false /\
    Forall2 (shown strptime (LinkHits st)) tl parsed /\
    forall y months name items,
      In (y, months) out -> In (name, items) months ->
      exists m,
        1 <= m <= 12 /\ name = month_name m /\ items <> [] /\
        items = sorted by_GeneratedOn true (filter (in_month y m) parsed).
Proof.
  intros Hu Hne Hp. unfold tracklist. simpl. rewrite Hu.
  rewrite (get_LinkHits_nonempty st Hne).
  destruct (build_overview_named strptime (LinkHits st) tl Hp)
    as [parsed [Hs [Hv Hb]]].
  rewrite Hb. exists parsed. eexists. split; [reflexivity|]. split; [assumption|].
  intros y months name items Hy Hm.
  pose proof (group_ok parsed Hv) as Hok.
  destruct (named_sorted_In _ _ _ _ _ Hok Hy Hm)
    as [months0 [m [items0 [Hy0 [Hm0 [-> ->]]]]]].
  destruct Hok as [Hnd Hall].
  pose proof (proj1 (Forall_forall _ _) Hall _ Hy0) as [Hnd0 Hvalid].
  simpl in Hnd0, Hvalid.
  assert (Hitems : items0 = filter (in_month y m) parsed).
  { rewrite <- group_of_group. unfold group_of.
    rewrite (In_get_NoDup _ _ _ Hnd Hy0).
    now rewrite (In_get_NoDup _ _ _ Hnd0 Hm0). }
  exists m. split; [|split; [reflexivity|split]].
  - apply (proj1 (Forall_forall _ _) Hvalid).
    now apply (in_map fst) in Hm0.
  - assert (Hne0 : items0 <> []).
    { pose proof (proj1 (Forall_forall _ _) (group_nonempty parsed) _ Hy0) as Hn.
      exact (proj1 (Forall_forall _ _) Hn _ Hm0). }
    intros Hnil. apply Hne0.
    apply Permutation_nil. rewrite <- Hnil.
    exact (sorted_Permutation generated true items0).
  - now rewrite Hitems.
Qed.

Lemma tracklist_month_holds_its_links_witness :
  exists parsed out,
    tracklist Strptime.parse march_store {| uid := Some "U" |}
    = RenderTrackList out false /\
    Forall2 (shown Strptime.parse (LinkHits march_store))
      [("a", stored "A" "2024-03-01 10:00:00.250000+00:00");
       ("b", stored "B" "2024-03-15 09:00:00.250000+00:00")] parsed /\
    forall y months name items,
      In (y, months) out -> In (name, items) months ->
      exists m,
        1 <= m <= 12 /\ name = month_name m /\ items <> [] /\
        items = sorted by_GeneratedOn true (filter (in_month y m) parsed).
Proof.
  apply (tracklist_month_holds_its_links Strptime.parse march_store "U").
  - reflexivity.
  - simpl. discriminate.
  - reflexivity.
Defined.

Lemma filter_insert_key {A : Type} (key : A -> Z) (c : Z) (x : A) l :
  filter (fun a => key a =? c) (insert (key_lt key) x l)
  = filter (fun a => key a =? c) (x :: l).
Proof.
  induction l as [|y l IH]; simpl; [reflexivity|].
  unfold key_lt at 1.
  destruct (Z.ltb_spec (key y) (key x)) as [Hlt|Hge]; simpl; [|reflexivity].
  rewrite IH. simpl.
  destruct (Z.eqb_spec (key y) c) as [Hy|Hy], (Z.eqb_spec (key x) c) as [Hx|Hx];
    try reflexivity.
  lia.
Qed.

Lemma filter_sort_stable_key {A : Type} (key : A -> Z) (c : Z) l :
  filter (fun a => key a =? c) (sort_stable (key_lt key) l)
  = filter (fun a => key a =? c) l.
Proof.
  induction l as [|x l IH]; simpl; [reflexivity|].
  rewrite filter_insert_key. simpl. now rewrite IH.
Qed.

(** X3.  Lines 120-122: links of one month whose [GeneratedOn] is the same
    instant stay in the order in which they stood before the sort. *)
Theorem sorted_links_keep_order_of_ties (c : Z) (items : list link_item) :
  filter (fun kv => generated kv =? c) (sorted by_GeneratedOn true items)
  = filter (fun kv => generated kv =? c) items.
Proof.
  change by_GeneratedOn with (key_lt generated).
  unfold sorted.
  rewrite filter_rev, filter_sort_stable_key, filter_rev.
  apply rev_involutive.
Qed.




Lemma get_Users_Some st u tl :
  get_Users st u = Some tl -> Dict.get u (Users st) = Some tl /\ tl <> [].
Proof.
  unfold get_Users, ref_get.
  destruct (Dict.get u (Users st)) as [[|kv d]|]; try discriminate.
  intros [= <-]. split; [reflexivity | discriminate].
Qed.

(** X5.  On a store where every link has a node in the hit index, as
    [index] leaves it, every link of the rendered overview carries [Hits],
    the length of its node: none is shown without a count. *)
Theorem tracklist_hits_on_indexed_store strptime st u tl :
  get_Users st u = Some tl ->
  indexed st ->
  parses strptime tl = true ->
  exists out,
    tracklist strptime st {| uid := Some u |} = RenderTrackList out false /\
    forall k link,
      In (k, link) tl ->
      exists item node,
        In (k, item) (all_items out) /\
        Dict.get k (LinkHits st) = Some node /\
        Hits item = Some (len node).
Proof.
  intros Hu Hidx Hp.
  destruct (get_Users_Some _ _ _ Hu) as [Hg Hne].
  assert (Hhits : LinkHits st <> []).
  { destruct tl as [|[k link] tl]; [congruence|].
    destruct (Hidx u _ k link Hg (or_introl eq_refl)) as [node Hnode].
    intros Hnil. rewrite Hnil in Hnode. discriminate. }
  destruct (tracklist_renders strptime st u tl Hu Hhits Hp)
    as [parsed [out [Ht [Hs [Hperm _]]]]].
  exists out. split; [assumption|].
  intros k link Hin.
  destruct (Forall2_In_l _ _ _ _ Hs Hin) as [[k' item] [Hin' Hshown]].
  destruct Hshown as (Hk & _ & _ & _ & Hhits'). simpl in *. subst k'.
  destruct (Hidx u _ k link Hg Hin) as [node Hnode].
  exists item, node. split; [|split; [assumption|]].
  - apply (Permutation_in _ (Permutation_sym Hperm)), Hin'.
  - rewrite Hhits'. unfold annotated. now rewrite Hnode.
Qed.

Lemma march_store_indexed : indexed march_store.
Proof.
  intros u links k link Hg Hin. simpl in Hg.
  destruct (String.eqb u "U"); [|discriminate].
  injection Hg as <-.
  destruct Hin as [[= <- <-]|[[= <- <-]|[]]]; eexists; reflexivity.
Qed.

Lemma tracklist_hits_on_indexed_store_witness :
  exists out,
    tracklist Strptime.parse march_store {| uid := Some "U" |}
    = RenderTrackList out false /\
    forall k link,
      In (k, link) [("a", stored "A" "2024-03-01 10:00:00.250000+00:00");
                    ("b", stored "B" "2024-03-15 09:00:00.250000+00:00")] ->
      exists item node,
        In (k, item) (all_items out) /\
        Dict.get k (LinkHits march_store) = Some node /\
        Hits item = Some (len node).
Proof.
  apply (tracklist_hits_on_indexed_store Strptime.parse march_store "U").
  - reflexivity.
  - exact march_store_indexed.
  - reflexivity.
Defined.

(** ** [track]: what it writes and what it leaves *)

Lemma track_rejects_witness :
  track "2024-03-16 08:00:00.500000+00:00" "-N2"
    (pixel_request "no-such-id" (Some "Mail")) session_U march_store
  = (Abort 400, march_store).
Proof.
  apply track_rejects. right. right. exists "no-such-id".
  split; [reflexivity|]. split; [simpl; discriminate | reflexivity].
Defined.

Lemma track_records_hit_witness :
  exists st' records,
    track "2024-03-16 09:00:00.500000+00:00" "-N2"
      (pixel_request "b" (Some "Mail")) {| uid := None |} march_store
    = (pixel, st') /\
    Users st' = Users march_store /\
    (forall other, other <> "b" ->
       Dict.get other (LinkHits st') = Dict.get other (LinkHits march_store)) /\
    Dict.get "b" (LinkHits st') = Some (HitsRecords records) /\
    Dict.get "-N2" records
    = Some {| IP := Some "203.0.113.7"; UserAgent := "Mail";
              AccessedOn := "2024-03-16 09:00:00.500000+00:00" |} /\
    len (HitsRecords records) = 2%nat.
Proof.
  apply (track_records_hit "2024-03-16 09:00:00.500000+00:00" "-N2"
           (pixel_request "b" (Some "Mail")) {| uid := None |} march_store "b"
           (HitsRecords
              [("-N1", {| IP := Some "203.0.113.7"; UserAgent := "Mail";
                          AccessedOn := "2024-03-16 08:00:00.500000+00:00" |})])
           "Mail").
  - reflexivity.
  - discriminate.
  - reflexivity.
  - left. reflexivity.
  - reflexivity.
  - reflexivity.
Defined.

(** The store after a request: as it was, or with the one event pushed. *)
Lemma track_outcome accessed_on push_id req sess st :
  snd (track accessed_on push_id req sess st) = st \/
  exists utm_id node user_agent,
    args_utm_id req = Some utm_id /\
    Dict.get utm_id (LinkHits st) = Some node /\
    header_User_Agent req = Some user_agent /\
    track accessed_on push_id req sess st
    = (pixel,
       push_hit push_id utm_id
         {| IP := py_or (header_X_Forwarded_For req) (remote_addr req);
            UserAgent := user_agent; AccessedOn := accessed_on |} st).
Proof.
  unfold track.
  destruct (args_utm_id req) as [utm_id|]; [|now left].
  destruct (negb (utm_id =? "")%string); [|now left].
  destruct (get_LinkHits st) as [all_hits|] eqn:Hall; [|now left].
  assert (Hall' : all_hits = LinkHits st).
  { unfold get_LinkHits, ref_get in Hall.
    destruct (LinkHits st); [discriminate | now injection Hall]. }
  subst all_hits.
  destruct (Dict.get utm_id (LinkHits st)) as [node|] eqn:Hnode; [|now left].
  destruct (self_view st sess utm_id) as [[]|r]; try now left.
  unfold record_hit.
  destruct (header_User_Agent req) as [user_agent|] eqn:Hua; [|now left].
  right. now exists utm_id, node, user_agent.
Qed.

(** X8.  A request that is not answered with status 200 (a 400, or an
    exception that nothing catches) leaves the store as it was. *)
Theorem track_failure_writes_nothing accessed_on push_id req sess st :
  status_code (fst (track accessed_on push_id req sess st)) <> 200 ->
  snd (track accessed_on push_id req sess st) = st.
Proof.
  intros Hstatus.
  destruct (track_outcome accessed_on push_id req sess st)
    as [Hsame|[utm_id [node [ua [_ [_ [_ Ht]]]]]]]; [assumption|].
  rewrite Ht in Hstatus. simpl in Hstatus. congruence.
Qed.

Lemma track_failure_writes_nothing_witness :
  snd (track "2024-03-16 08:00:00.500000+00:00" "-N2"
         (pixel_request "a" None) {| uid := None |} march_store)
  = march_store.
Proof.
  apply track_failure_writes_nothing. simpl. discriminate.
Defined.

(** X9.  Whatever the request, [track] leaves the links of every user as
    they were, and the hit node of every id other than the requested one. *)
Theorem track_touches_one_node accessed_on push_id req sess st :
  Users (snd (track accessed_on push_id req sess st)) = Users st /\
  forall other,
    args_utm_id req <> Some other ->
    Dict.get other (LinkHits (snd (track accessed_on push_id req sess st)))
    = Dict.get other (LinkHits st).
Proof.
  destruct (track_outcome accessed_on push_id req sess st)
    as [Hsame|[utm_id [node [ua [Ha [_ [_ Ht]]]]]]].
  - rewrite Hsame. auto.
  - rewrite Ht. simpl. split; [reflexivity|].
    intros other Hne. apply get_set_other. congruence.
Qed.

(** X10.  The hit index only grows: an event recorded under some id is
    still there, under its push id, after any request whose push id is
    another one. *)
Theorem track_keeps_events accessed_on push_id req sess st utm_id records k event :
  Dict.get utm_id (LinkHits st) = Some (HitsRecords records) ->
  Dict.get k records = Some event ->
  k <> push_id ->
  exists records',
    Dict.get utm_id (LinkHits (snd (track accessed_on push_id req sess st)))
    = Some (HitsRecords records') /\
    Dict.get k records' = Some event.
Proof.
  intros Hnode Hev Hk.
  destruct (track_outcome accessed_on push_id req sess st)
    as [Hsame|[id [node [ua [_ [Hid [_ Ht]]]]]]].
  - rewrite Hsame. now exists records.
  - rewrite Ht. unfold push_hit. simpl.
    destruct (String.eqb_spec utm_id id) as [->|Hne].
    + rewrite get_set_same. rewrite Hnode.
      eexists. split; [reflexivity|].
      now rewrite get_set_other.
    + rewrite get_set_other by assumption. now exists records.
Qed.

Lemma track_keeps_events_witness :
  exists records',
    Dict.get "b"
      (LinkHits (snd (track "2024-03-16 09:00:00.500000+00:00" "-N2"
                        (pixel_request "b" (Some "Mail")) {| uid := None |}
                        march_store)))
    = Some (HitsRecords records') /\
    Dict.get "-N1" records'
    = Some {| IP := Some "203.0.113.7"; UserAgent := "Mail";
              AccessedOn := "2024-03-16 08:00:00.500000+00:00" |}.
Proof.
  apply (track_keeps_events _ _ _ _ _ "b"
           [("-N1", {| IP := Some "203.0.113.7"; UserAgent := "Mail";
                       AccessedOn := "2024-03-16 08:00:00.500000+00:00" |})]).
  - reflexivity.
  - reflexivity.
  - discriminate.
Defined.

(** ** [index] and [tracking_data] *)

Lemma index_store utm_id generated_on f u st :
  snd (index utm_id generated_on (Some f) {| uid := Some u |} st)
  = update_LinkHits utm_id
      (set_link u utm_id
         {| MailTitle := email_title f; MailAddress := email_address f;
            GeneratedOn := generated_on; Hits := None |} st).
Proof. reflexivity. Qed.

(** X11.  A valid form from a logged-in user stores the link under that user
    and a placeholder under the hit index, both retrievable by the new id,
    and redirects to the detail page of that id with 303. *)
Theorem index_registers_link utm_id generated_on f sess st u :
  uid sess = Some u ->
  let st' := snd (index utm_id generated_on (Some f) sess st) in
  fst (index utm_id generated_on (Some f) sess st)
  = RedirectTo "tracking_data" (Some utm_id) 303
      (Some "Tracking link successfully generated!") None /\
  get_link st' u utm_id
  = Some {| MailTitle := email_title f; MailAddress := email_address f;
            GeneratedOn := generated_on; Hits := None |} /\
  get_hits st' utm_id = Some (HitsPlaceholder "") /\
  hit_count st' utm_id = Some 0%nat.
Proof.
  intros Hu. unfold index. rewrite Hu. simpl.
  unfold get_link, get_hits, hit_count. simpl.
  rewrite !get_set_same. auto.
Qed.

Lemma index_registers_link_witness :
  let st' := snd (index "id-1" "2024-03-20 10:00:00.250000+00:00"
                    (Some generate_form) session_U march_store) in
  fst (index "id-1" "2024-03-20 10:00:00.250000+00:00"
         (Some generate_form) session_U march_store)
  = RedirectTo "tracking_data" (Some "id-1") 303
      (Some "Tracking link successfully generated!") None /\
  get_link st' "U" "id-1"
  = Some {| MailTitle := "Offer"; MailAddress := "to@example.org";
            GeneratedOn := "2024-03-20 10:00:00.250000+00:00"; Hits := None |} /\
  get_hits st' "id-1" = Some (HitsPlaceholder "") /\
  hit_count st' "id-1" = Some 0%nat.
Proof.
  apply (index_registers_link "id-1" "2024-03-20 10:00:00.250000+00:00"
           generate_form session_U march_store "U").
  reflexivity.
Defined.

(** X12.  Whatever the request, [index] leaves every other link and every
    other hit node as they were: only the link of the session's user under
    the new id, and the hit node of the new id, can change. *)
Theorem index_touches_one_link utm_id generated_on form sess st :
  (forall u k,
     (uid sess, k) <> (Some u, utm_id) ->
     get_link (snd (index utm_id generated_on form sess st)) u k = get_link st u k) /\
  (forall k,
     k <> utm_id ->
     Dict.get k (LinkHits (snd (index utm_id generated_on form sess st)))
     = Dict.get k (LinkHits st)).
Proof.
  unfold index.
  destruct form as [f|]; [|simpl; auto].
  destruct (uid sess) as [u0|]; [|simpl; auto].
  simpl. split.
  - intros u k Hne. unfold get_link. simpl.
    destruct (String.eqb_spec u u0) as [->|Hu].
    + rewrite get_set_same.
      assert (Hk : k <> utm_id) by congruence.
      rewrite get_set_other by assumption.
      now destruct (Dict.get u0 (Users st)).
    + now rewrite get_set_other.
  - intros k Hk. now apply get_set_other.
Qed.

(** X13.  The detail page that [index] redirects to shows the link just
    made, with the placeholder as its hits. *)
Theorem tracking_data_after_index utm_id generated_on f sess st u :
  uid sess = Some u ->
  tracking_data utm_id sess (snd (index utm_id generated_on (Some f) sess st))
  = RenderTrackingData
      {| MailTitle := email_title f; MailAddress := email_address f;
         GeneratedOn := generated_on; Hits := None |}
      (Some (HitsPlaceholder "")) utm_id.
Proof.
  intros Hu. unfold tracking_data, index. rewrite Hu. simpl.
  unfold get_link, get_hits. simpl. now rewrite !get_set_same.
Qed.

Lemma tracking_data_after_index_witness :
  tracking_data "id-1" session_U
    (snd (index "id-1" "2024-03-20 10:00:00.250000+00:00"
            (Some generate_form) session_U empty_store))
  = RenderTrackingData
      {| MailTitle := "Offer"; MailAddress := "to@example.org";
         GeneratedOn := "2024-03-20 10:00:00.250000+00:00"; Hits := None |}
      (Some (HitsPlaceholder "")) "id-1".
Proof.
  apply (tracking_data_after_index "id-1" "2024-03-20 10:00:00.250000+00:00"
           generate_form session_U empty_store "U").
  reflexivity.
Defined.

(** X14.  The detail page shows a link only to the user it is stored under:
    whenever it renders, the data is the session user's own link of that id
    and the hits are the node of that id. *)
Theorem tracking_data_shows_own_link utm_id sess st data hits shown_id :
  tracking_data utm_id sess st = RenderTrackingData data hits shown_id ->
  exists u,
    uid sess = Some u /\ get_link st u utm_id = Some data /\
    hits = get_hits st utm_id /\ shown_id = utm_id.
Proof.
  unfold tracking_data.
  destruct (uid sess) as [u|]; [|discriminate].
  destruct (get_link st u utm_id) as [link|] eqn:Hg; [|discriminate].
  intros [= <- <- <-]. now exists u.
Qed.

Lemma tracking_data_shows_own_link_witness :
  exists u,
    uid session_U = Some u /\
    get_link march_store u "a"
    = Some (stored "A" "2024-03-01 10:00:00.250000+00:00") /\
    Some (HitsPlaceholder "") = get_hits march_store "a" /\ "a" = "a".
Proof.
  apply (tracking_data_shows_own_link "a" session_U march_store
           (stored "A" "2024-03-01 10:00:00.250000+00:00")
           (Some (HitsPlaceholder "")) "a").
  reflexivity.
Defined.

Lemma get_Users_set_link u utm_id link st :
  get_Users (update_LinkHits utm_id (set_link u utm_id link st)) u
  = Some (Dict.set utm_id link
            (match Dict.get u (Users st) with Some l => l | None => [] end)).
Proof.
  unfold get_Users, ref_get. simpl. rewrite get_set_same.
  destruct (Dict.get u (Users st)) as [[|[k v] l]|]; simpl;
    try reflexivity.
  now destruct (String.eqb utm_id k).
Qed.

(** X15.  The pixel of a link just made, asked for by its owner's own
    session, is served and recorded nowhere: the store stays as [index]
    left it. *)
Theorem track_owner_after_index utm_id generated_on f sess st u
    accessed_on push_id req :
  uid sess = Some u ->
  utm_id <> "" ->
  args_utm_id req = Some utm_id ->
  let st' := snd (index utm_id generated_on (Some f) sess st) in
  track accessed_on push_id req sess st' = (pixel, st').
Proof.
  intros Hu Hne Ha st'.
  assert (Hst' : st' = update_LinkHits utm_id
                         (set_link u utm_id
                            {| MailTitle := email_title f;
                               MailAddress := email_address f;
                               GeneratedOn := generated_on; Hits := None |} st)).
  { unfold st', index. now rewrite Hu. }
  clearbody st'. subst st'.
  rewrite (track_known_id _ _ _ _ _ utm_id (HitsPlaceholder "") Ha Hne).
  - erewrite self_view_owner; [reflexivity | exact Hu | apply get_Users_set_link |].
    unfold Dict.keys. apply in_map_iff.
    eexists (utm_id, _). split; [reflexivity|].
    apply get_Some_In, get_set_same.
  - simpl. apply get_set_same.
Qed.

Lemma track_owner_after_index_witness :
  let st' := snd (index "id-1" "2024-03-20 10:00:00.250000+00:00"
                    (Some generate_form) session_U march_store) in
  track "2024-03-21 08:00:00.500000+00:00" "-N3"
    (pixel_request "id-1" (Some "Mail")) session_U st'
  = (pixel, st').
Proof.
  apply (track_owner_after_index "id-1" "2024-03-20 10:00:00.250000+00:00"
           generate_form session_U march_store "U").
  - reflexivity.
  - discriminate.
  - reflexivity.
Defined.

(** X16.  The pixel of a link just made, asked for without a session and
    with a User-Agent, is served and counted: the link then has exactly one
    hit, the event of this request. *)
Theorem track_stranger_after_index utm_id generated_on f sess st u
    accessed_on push_id req user_agent :
  uid sess = Some u ->
  utm_id <> "" ->
  args_utm_id req = Some utm_id ->
  header_User_Agent req = Some user_agent ->
  let st' := snd (index utm_id generated_on (Some f) sess st) in
  let st'' := snd (track accessed_on push_id req {| uid := None |} st') in
  fst (track accessed_on push_id req {| uid := None |} st') = pixel /\
  get_hits st'' utm_id
  = Some (HitsRecords
            [(push_id,
              {| IP := py_or (header_X_Forwarded_For req) (remote_addr req);
                 UserAgent := user_agent; AccessedOn := accessed_on |})]) /\
  hit_count st'' utm_id = Some 1%nat.
Proof.
  intros Hu Hne Ha Hua st'.
  assert (Hnode : Dict.get utm_id (LinkHits st') = Some (HitsPlaceholder "")).
  { unfold st', index. rewrite Hu. simpl. apply get_set_same. }
  rewrite (track_known_id _ _ _ _ _ utm_id (HitsPlaceholder "") Ha Hne Hnode).
  simpl. unfold record_hit. rewrite Hua. simpl.
  unfold get_hits, hit_count, push_hit. simpl.
  rewrite Hnode, !get_set_same. simpl. auto.
Qed.

Lemma track_stranger_after_index_witness :
  let st' := snd (index "id-1" "2024-03-20 10:00:00.250000+00:00"
                    (Some generate_form) session_U march_store) in
  let st'' := snd (track "2024-03-21 08:00:00.500000+00:00" "-N3"
                     (pixel_request "id-1" (Some "Mail")) {| uid := None |} st') in
  fst (track "2024-03-21 08:00:00.500000+00:00" "-N3"
         (pixel_request "id-1" (Some "Mail")) {| uid := None |} st') = pixel /\
  get_hits st'' "id-1"
  = Some (HitsRecords
            [("-N3",
              {| IP := Some "203.0.113.7"; UserAgent := "Mail";
                 AccessedOn := "2024-03-21 08:00:00.500000+00:00" |})]) /\
  hit_count st'' "id-1" = Some 1%nat.
Proof.
  apply (track_stranger_after_index "id-1" "2024-03-20 10:00:00.250000+00:00"
           generate_form session_U march_store "U"
           "2024-03-21 08:00:00.500000+00:00" "-N3"
           (pixel_request "id-1" (Some "Mail")) "Mail").
  - reflexivity.
  - discriminate.
  - reflexivity.
  - reflexivity.
Defined.

Lemma parses_set strptime k (link : link_dict string) d (l : dict string (link_dict string)) :
  parses strptime l = true ->
  strptime (GeneratedOn link) = Some d -> 1 <= month d <= 12 ->
  parses strptime (Dict.set k link l) = true.
Proof.
  intros Hp Hd Hm.
  assert (Hlink : match strptime (GeneratedOn link) with
                  | Some d => (1 <=? month d) && (month d <=? 12)
                  | None => false
                  end = true).
  { rewrite Hd. apply andb_true_intro. split; apply Z.leb_le; lia. }
  induction l as [|[k' v'] l IH]; simpl in *.
  - now rewrite Hlink.
  - apply andb_prop in Hp. destruct Hp as [Hv Hl].
    destruct (String.eqb k k'); simpl.
    + now rewrite Hlink, Hl.
    + now rewrite Hv, IH.
Qed.

(** X17.  A link just made is in the owner's overview, with its title, its
    address, its parsed date and a hit count of 0, provided the timestamps
    of the owner's links parse. *)
Theorem tracklist_after_index strptime utm_id generated_on f sess st u d :
  uid sess = Some u ->
  parses strptime
    (match Dict.get u (Users st) with Some l => l | None => [] end) = true ->
  strptime generated_on = Some d ->
  1 <= month d <= 12 ->
  exists out item,
    tracklist strptime (snd (index utm_id generated_on (Some f) sess st)) sess
    = RenderTrackList out false /\
    In (utm_id, item) (all_items out) /\
    MailTitle item = email_title f /\
    MailAddress item = email_address f /\
    GeneratedOn item = d /\
    Hits item = Some 0%nat.
Proof.
  intros Hu Hp Hd Hm. destruct sess as [uid_]. simpl in Hu. subst uid_.
  rewrite index_store.
  set (link := {| MailTitle := email_title f; MailAddress := email_address f;
                  GeneratedOn := generated_on; Hits := None |}).
  set (links := match Dict.get u (Users st) with Some l => l | None => [] end) in *.
  set (st' := update_LinkHits utm_id (set_link u utm_id link st)).
  assert (Hne : LinkHits st' <> []).
  { intros Hnil. assert (Hg : Dict.get utm_id (LinkHits st') = None)
      by now rewrite Hnil.
    simpl in Hg. now rewrite get_set_same in Hg. }
  destruct (tracklist_renders strptime st' u (Dict.set utm_id link links)
              (get_Users_set_link u utm_id link st) Hne
              (parses_set strptime utm_id link d links Hp Hd Hm))
    as [parsed [out [Ht [Hs [Hperm _]]]]].
  assert (Hin : In (utm_id, link) (Dict.set utm_id link links))
    by apply get_Some_In, get_set_same.
  destruct (Forall2_In_l _ _ _ _ Hs Hin) as [[k item] [Hin' Hshown]].
  destruct Hshown as (Hk & Htitle & Haddr & Hgen & Hhits). simpl in *. subst k.
  exists out, item. split; [assumption|]. split.
  - apply (Permutation_in _ (Permutation_sym Hperm)), Hin'.
  - repeat split; try assumption.
    + rewrite Hd in Hgen. now injection Hgen.
    + rewrite Hhits. unfold annotated. simpl. now rewrite get_set_same.
Qed.

Lemma tracklist_after_index_witness :
  exists out item,
    tracklist Strptime.parse
      (snd (index "id-1" "2024-03-20 10:00:00.250000+00:00"
              (Some generate_form) session_U march_store)) session_U
    = RenderTrackList out false /\
    In ("id-1", item) (all_items out) /\
    MailTitle item = "Offer" /\
    MailAddress item = "to@example.org" /\
    GeneratedOn item = utc 2024 3 20 10 0 /\
    Hits item = Some 0%nat.
Proof.
  apply (tracklist_after_index Strptime.parse "id-1"
           "2024-03-20 10:00:00.250000+00:00" generate_form session_U
           march_store "U" (utc 2024 3 20 10 0)).
  - reflexivity.
  - reflexivity.
  - reflexivity.
  - simpl. lia.
Defined.

(** ** What the store keeps *)







(** ** [logout] and [login] *)

(** X19.  Tokens are revoked only for the user whose claims the presented
    cookie verified to, and only together with the cookie being cleared on
    a redirect to the login page; in every other case nothing is revoked
    and no cookie is set. *)
Theorem logout_revokes_verified_user_only idp req :
  (snd (logout idp req) = [] /\
   forall endpoint code flashed c,
     fst (logout idp req) <> Redirect endpoint code flashed (Some c)) \/
  exists u,
    verify_session_cookie idp (cookie_secure_session req) = Claims u /\
    revoke_refresh_tokens idp u = None /\
    logout idp req
    = (Redirect "login" 303 (Some "Successfully Logged Out! - See you soon...")
         (Some ("secure-session", "", 0)),
       [u]).
Proof.
  unfold logout.
  destruct (verify_session_cookie idp (cookie_secure_session req))
    as [u| |e] eqn:Hv.
  - destruct (revoke_refresh_tokens idp u) as [e|] eqn:Hr.
    + left. split; [reflexivity | discriminate].
    + right. now exists u.
  - left. split; [reflexivity | discriminate].
  - left. split; [reflexivity | discriminate].
Qed.

Lemma on_sign_in_error_no_redirect e endpoint arg code flashed c :
  on_sign_in_error e <> RedirectTo endpoint arg code flashed c.
Proof. unfold on_sign_in_error. destruct (caught_on_sign_in e); discriminate. Qed.

(** X20.  [login] sets a cookie only when no session cookie came with the
    request, the form was valid, the sign-in endpoint answered 200 and the
    session cookie was created from the token of that answer; the cookie is
    then [secure-session] with that value, fourteen days, HTTP-only, secure
    and strict same-site, on a 303 to the index. *)
Theorem login_cookie_only_after_sign_in w form req endpoint arg code flashed ck :
  login w form req = RedirectTo endpoint arg code flashed (Some ck) ->
  (cookie_secure_session req = None \/ cookie_secure_session req = Some "") /\
  exists c key token,
    form = Some c /\ api_key w = Some key /\
    post_sign_in w key (username c) (password c) = inr (200, inr token) /\
    create_session_cookie w token = inr (cookie_value ck) /\
    ck = {| cookie_name := "secure-session"; cookie_value := cookie_value ck;
            max_age := 1209600; httponly := true; secure := true;
            samesite := "Strict" |} /\
    endpoint = "index" /\ arg = None /\ code = 303 /\ flashed = None.
Proof.
  unfold login. intros Hl.
  assert (Hs : sign_in w form = RedirectTo endpoint arg code flashed (Some ck) /\
               (cookie_secure_session req = None \/
                cookie_secure_session req = Some "")).
  { destruct (cookie_secure_session req) as [c|]; [|auto].
    destruct (String.eqb_spec c "") as [Heq|Hne]; [rewrite Heq; auto|].
    unfold already_logged_in in Hl.
    destruct (check_cookie w c); discriminate. }
  destruct Hs as [Hs Hcookie]. split; [assumption|]. clear Hl.
  unfold sign_in in Hs.
  destruct form as [c|]; [|discriminate].
  destruct (api_key w) as [key|]; [|discriminate].
  destruct (post_sign_in w key (username c) (password c))
    as [e|[status id_token]] eqn:Hpost;
    [now apply on_sign_in_error_no_redirect in Hs|].
  destruct (Z.eqb_spec status 200) as [->|Hne]; [|discriminate].
  destruct id_token as [e|token];
    [now apply on_sign_in_error_no_redirect in Hs|].
  destruct (create_session_cookie w token) as [e|session_cookie] eqn:Hc;
    [now apply on_sign_in_error_no_redirect in Hs|].
  injection Hs as <- <- <- <- <-.
  exists c, key, token. simpl. auto 10.
Qed.

Lemma login_cookie_only_after_sign_in_witness :
  (cookie_secure_session (logout_request None) = None \/
   cookie_secure_session (logout_request None) = Some "") /\
  exists c key token,
    Some {| username := "u@example.org"; password := "secret" |} = Some c /\
    api_key one_account = Some key /\
    post_sign_in one_account key (username c) (password c)
    = inr (200, inr token) /\
    create_session_cookie one_account token = inr "cookie-for-id-token" /\
    {| cookie_name := "secure-session"; cookie_value := "cookie-for-id-token";
       max_age := 1209600; httponly := true; secure := true;
       samesite := "Strict" |}
    = {| cookie_name := "secure-session"; cookie_value := "cookie-for-id-token";
         max_age := 1209600; httponly := true; secure := true;
         samesite := "Strict" |} /\
    "index" = "index" /\ @None string = None /\ 303 = 303 /\ @None string = None.
Proof.
  apply (login_cookie_only_after_sign_in one_account
           (Some {| username := "u@example.org"; password := "secret" |})
           (logout_request None) "index" None 303 None
           {| cookie_name := "secure-session";
              cookie_value := "cookie-for-id-token";
              max_age := 1209600; httponly := true; secure := true;
              samesite := "Strict" |}).
  reflexivity.
Defined.




